(** * Indian-Election-Analysis: the schema normaliser of [app.py]

    A shallow embedding of the dashboard script: [normalize], [map_semantic],
    [has] and [load_data], then the script body (the sidebar filters, the
    four metrics and the data preview), followed by the properties of the
    specification that concern them.

    Modelling conventions.
    - A pandas frame is a list of column labels together with a list of rows;
      a row is the list of its cells, aligned by position with the labels.
      Labels may repeat, exactly as in a pandas column index.
    - A cell is null (NaN), a number or a string.  The numbers are the ones
      pandas holds (integers, floats, the infinities), taken up to Python's
      [==]; their type [num] is a parameter of the development.
    - What pandas and Python compute with numbers is no code of the script:
      the number a string is read as, the dtype a column is given when frames
      are put together, the mean of a series, [int()] of a float.  These
      operations are parameters as well (class [Numbers]); what is assumed
      of them is stated once, in the class [NumbersLaws].
    - A Python string is a [string] whose characters are read as the code
      points 0..255.
    - A raised exception is a value of [exn]; functions that can raise return
      a [result]. *)

From Stdlib Require Import ZArith Ascii String List.
From stdpp Require Import base tactics option list strings sorting gmap.

Local Open Scope Z_scope.
Local Open Scope string_scope.

#[local] Set Warnings "-clear-no-such-hyp".

(** ** Python strings *)

Module PyStr.

Definition code (c : ascii) : N := N_of_ascii c.

(** [str.isspace] on one character, for code points below 256:
    TAB..CR, FS..US, SPACE, NEL and NBSP. *)
Definition isspace (c : ascii) : bool :=
  let n := code c in
  (((9 <=? n) && (n <=? 13)) || ((28 <=? n) && (n <=? 32))
   || (n =? 133) || (n =? 160))%N.

(** [str.lower] on one character: A..Z and the upper-case letters of the
    Latin-1 block (all of 0xC0..0xDE but the multiplication sign). *)
Definition lower_char (c : ascii) : ascii :=
  let n := code c in
  if (((65 <=? n) && (n <=? 90))
      || ((192 <=? n) && (n <=? 222) && negb (n =? 215)))%N
  then ascii_of_N (n + 32) else c.

Fixpoint lstrip (l : list ascii) : list ascii :=
  match l with
  | c :: l' => if isspace c then lstrip l' else l
  | [] => []
  end.

Definition rstrip (l : list ascii) : list ascii :=
  reverse (lstrip (reverse l)).

(** [s.strip()] *)
Definition strip (l : list ascii) : list ascii := rstrip (lstrip l).

(** [s.lower()] *)
Definition lower (l : list ascii) : list ascii := map lower_char l.

(** [s.replace(old, new)] for one-character [old] and [new]. *)
Definition replace_char (old new : ascii) (l : list ascii) : list ascii :=
  map (fun c => if Ascii.eqb c old then new else c) l.

End PyStr.

Definition label := string.

(** The chain of string methods [normalize] applies to one column label:
    [.str.strip().str.lower().str.replace(" ", "_").str.replace(".", "_")]. *)
Definition clean_chars (l : list ascii) : list ascii :=
  PyStr.replace_char "." "_"
    (PyStr.replace_char " " "_" (PyStr.lower (PyStr.strip l))).

Definition clean (x : label) : label :=
  string_of_list_ascii (clean_chars (list_ascii_of_string x)).

(** ** Decimal integer literals

    The strings every numeric reader agrees on: an optional sign, at least
    one digit, blanks allowed around.  [pd.to_numeric] reads many more
    (decimal points, exponents, [inf]); which ones is a parameter below, and
    these literals pin it where the script's behaviour is stated on
    examples. *)

Module Numeric.

Definition isspace_c (c : ascii) : bool :=
  let n := PyStr.code c in (((9 <=? n) && (n <=? 13)) || (n =? 32))%N.

Fixpoint lskip (l : list ascii) : list ascii :=
  match l with
  | c :: l' => if isspace_c c then lskip l' else l
  | [] => []
  end.

Definition digit (c : ascii) : option Z :=
  let n := PyStr.code c in
  if ((48 <=? n) && (n <=? 57))%N then Some (Z.of_N n - 48) else None.

Fixpoint digits (acc : Z) (l : list ascii) : option Z :=
  match l with
  | [] => Some acc
  | c :: l' => d ← digit c; digits (10 * acc + d) l'
  end.

Definition unsigned (l : list ascii) : option Z :=
  match l with
  | [] => None
  | _ => digits 0 l
  end.

(** A decimal integer literal: optional sign, at least one digit, blanks
    allowed around it. *)
Definition parse_int (s : string) : option Z :=
  match reverse (lskip (reverse (lskip (list_ascii_of_string s)))) with
  | "-"%char :: l => Z.opp <$> unsigned l
  | "+"%char :: l => unsigned l
  | l => unsigned l
  end.

(** A string with no digit and no letter [i]: it spells no number, not even
    an infinity. *)
Definition plain (s : string) : Prop :=
  Forall (fun c => digit c = None ∧ c ≠ "i"%char ∧ c ≠ "I"%char)
         (list_ascii_of_string s).

(** The integers a float holds exactly, whatever dtype a column is given:
    those of magnitude at most 2^53. *)
Definition small (z : Z) : Prop := (Z.abs z ≤ 9007199254740992)%Z.

End Numeric.

(** ** Exceptions *)

Inductive exn : Type :=
| ValueError
| TypeError
| InvalidIndexError
| AttributeError
| KeyError
| OverflowError.

Inductive result (A : Type) : Type :=
| Ok (a : A)
| Raise (e : exn).

Arguments Ok {A} a.
Arguments Raise {A} e.

Global Instance result_ret : MRet result := @Ok.
Global Instance result_bind : MBind result :=
  fun A B f m => match m with Ok a => f a | Raise e => Raise e end.

Section Model.

Context {num : Type} `{EqDecision num}.

(** ** Frames and cells *)

Inductive value : Type :=
| NaN
| Num (x : num)
| Str (s : string).

Global Instance value_eq_dec : EqDecision value.
Proof. solve_decision. Defined.

Record DataFrame : Type := mkDF {
  columns : list label;
  rows : list (list value)
}.

(** The cell of row [r] at position [i]. *)
Definition cell (r : list value) (i : nat) : value := default NaN (r !! i).

(** The positions of the columns labelled [c]. *)
Fixpoint positions_from (i : nat) (c : label) (cols : list label) : list nat :=
  match cols with
  | [] => []
  | l :: cols' =>
      if decide (l = c) then i :: positions_from (S i) c cols'
      else positions_from (S i) c cols'
  end.

Definition positions (c : label) (cols : list label) : list nat :=
  positions_from 0 c cols.

(** All the cells a row holds under label [c] (one per column so labelled). *)
Definition cells_at (cols : list label) (c : label) (r : list value)
  : list value :=
  cell r <$> positions c cols.

Definition isna (v : value) : bool :=
  match v with NaN => true | _ => false end.

(** [df[c]] used as a series.  pandas hands back a series when exactly one
    column is labelled [c], raises [KeyError] when none is, and hands back a
    frame when several are; [e] is the exception the caller's next operation
    raises on a frame. *)
Definition series_of (e : exn) (df : DataFrame) (c : label)
  : result (list value) :=
  match positions c (columns df) with
  | [] => Raise KeyError
  | [i] => Ok ((fun r => cell r i) <$> rows df)
  | _ => Raise e
  end.

(** ** [normalize], [map_semantic], [has] *)

Definition normalize (df : DataFrame) : DataFrame :=
  {| columns := clean <$> columns df; rows := rows df |}.

(** One iteration of the loop of [map_semantic] over [df.columns]. *)
Definition rename_step (rename : gmap label label) (c : label)
  : gmap label label :=
  if bool_decide (c ∈ ["state"; "state_name"]) then <[c := "state"]> rename
  else if bool_decide (c ∈ ["party"; "party_name"]) then <[c := "party"]> rename
  else if bool_decide (c ∈ ["votes"; "total_votes"; "valid_votes"])
       then <[c := "votes"]> rename
  else if bool_decide (c ∈ ["margin"; "vote_margin"; "winning_margin"])
       then <[c := "margin"]> rename
  else rename.

Definition rename_dict (cols : list label) : gmap label label :=
  foldl rename_step ∅ cols.

(** [df.rename(columns=rename)]: a label that is a key is replaced by its
    value, every other label is kept; the data is untouched. *)
Definition rename_columns (rename : gmap label label) (df : DataFrame)
  : DataFrame :=
  {| columns := (fun c => default c (rename !! c)) <$> columns df;
     rows := rows df |}.

Definition map_semantic (df : DataFrame) : DataFrame :=
  rename_columns (rename_dict (columns df)) df.

Definition has (df : DataFrame) (col : label) : bool :=
  bool_decide (col ∈ columns df).

(** ** The numbers of pandas

    The operations on numbers the script reaches through pandas and Python.
    - [of_int z] is the number an integer literal of the script denotes.
    - [numeric_str s] tells whether [pd.to_numeric] reads the string [s] as
      a number (a string it cannot read, and one that spells NaN, are
      coerced to null).
    - [to_numeric s] is [pd.to_numeric(s, errors="coerce")] on a series.
    - [concat_values blocks] is the data of [pd.concat] once every frame has
      been laid out on the new columns: the blocks one after the other, each
      column in the dtype pandas gives it.
    - [num_le] is Python's [<=] on numbers.
    - [mean xs] is [Series.mean()] of a series without nulls; [None] stands
      for the NaN it can return.
    - [to_int x] is Python's [int(x)], which raises on an infinite float. *)
Class Numbers : Type := {
  of_int : Z → num;
  numeric_str : string → bool;
  to_numeric : list value → list value;
  concat_values : list (list (list value)) → list (list value);
  num_le : num → num → Prop;
  num_le_dec :: RelDecision num_le;
  mean : list num → option num;
  to_int : num → result Z
}.

Context {N : Numbers}.

(** ** Column assignment, row dropping and concatenation *)

(** The cells of [r] under label [c] are replaced by [v]. *)
Definition overwrite (cols : list label) (c : label) (v : value)
    (r : list value) : list value :=
  zip_with (fun l x => if decide (l = c) then v else x) cols r.

(** [df[c] = s] for a series [s] with one value per row: every column
    labelled [c] receives it, and a new last column is added when there is
    none. *)
Definition setitem (df : DataFrame) (c : label) (s : list value) : DataFrame :=
  if has df c then
    {| columns := columns df;
       rows := zip_with (overwrite (columns df) c) s (rows df) |}
  else
    {| columns := (columns df ++ [c])%list;
       rows := zip_with (fun v r => (r ++ [v])%list) s (rows df) |}.

(** [df[c] = v] for a scalar [v], broadcast over the rows. *)
Definition setitem_scalar (df : DataFrame) (c : label) (v : value)
  : DataFrame :=
  setitem df c (replicate (length (rows df)) v).

(** [df.dropna(subset=[c])] *)
Definition dropna_subset (df : DataFrame) (c : label) : DataFrame :=
  {| columns := columns df;
     rows := filter (fun r => Forall (fun v => v ≠ NaN)
                                (cells_at (columns df) c r)) (rows df) |}.

(** Lines 64-66 of [load_data], on the raw 2024 frame. *)
Definition sanitize_margin (d24 : DataFrame) : result DataFrame :=
  if has d24 "Margin" then
    s ← series_of TypeError d24 "Margin";
    let d24 := setitem d24 "Margin" (to_numeric s) in
    Ok (dropna_subset d24 "Margin")
  else Ok d24.

(** The elements of [l] that are not in [seen], each once, in order of first
    appearance. *)
Fixpoint unique_from {A} `{EqDecision A} (seen l : list A) : list A :=
  match l with
  | [] => []
  | x :: l' =>
      if decide (x ∈ seen) then unique_from seen l'
      else x :: unique_from (x :: seen) l'
  end.

Definition unique {A} `{EqDecision A} (l : list A) : list A :=
  unique_from [] l.

(** The column index of the concatenation: the first index when all are
    equal, else the distinct labels in order of first appearance. *)
Definition union_indexes (indexes : list (list label)) : list label :=
  match indexes with
  | [] => []
  | i0 :: others =>
      if bool_decide (Forall (fun i => i = i0) others) then i0
      else unique (mjoin indexes)
  end.

(** [obj_labels.get_indexer(new_labels)]: for each new label its position in
    [obj_labels], if any.  pandas refuses to reindex from labels that repeat
    ("Reindexing only valid with uniquely valued Index objects"); current
    versions raise [InvalidIndexError] for it. *)
Definition get_indexer (obj_labels new_labels : list label)
  : result (list (option nat)) :=
  if bool_decide (NoDup obj_labels) then
    Ok ((fun c => fst <$> list_find (fun l => l = c) obj_labels)
          <$> new_labels)
  else Raise InvalidIndexError.

Definition take (indexer : list (option nat)) (r : list value) : list value :=
  (fun o => match o with Some i => cell r i | None => NaN end) <$> indexer.

(** The rows of [obj] laid out on the columns [new_labels]. *)
Definition align (new_labels : list label) (obj : DataFrame)
  : result (list (list value)) :=
  if bool_decide (columns obj = new_labels) then Ok (rows obj)
  else
    indexer ← get_indexer (columns obj) new_labels;
    Ok (take indexer <$> rows obj).

(** [pd.concat(objs, ignore_index=True, sort=False)] *)
Definition concat (objs : list DataFrame) : result DataFrame :=
  match objs with
  | [] => Raise ValueError
  | _ =>
      let new_labels := union_indexes (columns <$> objs) in
      blocks ← mapM (align new_labels) objs;
      Ok {| columns := new_labels; rows := concat_values blocks |}
  end.

(** ** [load_data]

    The three arguments are the frames [pd.read_csv] returns for the 2014,
    2019 and 2024 files. *)

Definition load_data (csv14 csv19 csv24 : DataFrame) : result DataFrame :=
  let d14 := map_semantic (normalize csv14) in
  let d19 := map_semantic (normalize csv19) in
  d24 ← sanitize_margin csv24;
  let d24 := map_semantic (normalize d24) in
  let d14 := setitem_scalar d14 "year" (Num (of_int 2014)) in
  let d19 := setitem_scalar d19 "year" (Num (of_int 2019)) in
  let d24 := setitem_scalar d24 "year" (Num (of_int 2024)) in
  concat [d14; d19; d24].

(** ** The script body: sidebar filters and average metrics *)

Definition All : value := Str "All".

Record controls : Type := mkControls {
  sel_year : value;
  sel_state : value;
  sel_party : value
}.

(** [a == b] on cells: null equals nothing. *)
Definition py_eqb (a b : value) : bool := bool_decide (a = b) && negb (isna a).

(** [df[mask]] for a boolean series [mask]. *)
Definition getitem_mask (df : DataFrame) (mask : list bool) : DataFrame :=
  {| columns := columns df;
     rows := fst <$> filter (fun p => p.2 = true) (zip (rows df) mask) |}.

Definition dropna (s : list value) : list value :=
  filter (fun v => v ≠ NaN) s.

Definition is_str (v : value) : bool :=
  match v with Str _ => true | _ => false end.

(** [sorted(l)] has to compare a string with a number as soon as [l] holds
    both, and that comparison raises [TypeError]. *)
Definition sorted_check (l : list value) : result unit :=
  if existsb is_str l && existsb (fun v => negb (is_str v)) l
  then Raise TypeError else Ok ().

(** Lines 92-100 and 103-111: one cascading filter on column [c]; [choice]
    is what the selection widget returned. *)
Definition cascade (c : label) (choice : value) (filtered : DataFrame)
  : result DataFrame :=
  if has filtered c then
    s ← series_of AttributeError filtered c;
    _ ← sorted_check (unique (dropna s));
    if decide (choice ≠ All)
    then Ok (getitem_mask filtered ((fun x => py_eqb x choice) <$> s))
    else Ok filtered
  else Ok filtered.

(** Lines 84-89: the year selection. *)
Definition year_filter (year : value) (df : DataFrame) : result DataFrame :=
  s ← series_of AttributeError df "year";
  _ ← sorted_check (unique s);
  Ok (getitem_mask df ((fun x => py_eqb x year) <$> s)).

(** Lines 84-111: the value of [filtered] after the three controls. *)
Definition filtered_view (df : DataFrame) (ctl : controls) : result DataFrame :=
  filtered ← year_filter (sel_year ctl) df;
  filtered ← cascade "state" (sel_state ctl) filtered;
  cascade "party" (sel_party ctl) filtered.

Inductive metric : Type :=
| NotAvailable
| Shown (z : Z).

Fixpoint numbers (s : list value) : list num :=
  match s with
  | [] => []
  | Num x :: s' => x :: numbers s'
  | _ :: s' => numbers s'
  end.

(** Lines 129-134 and 140-145: [avg = entries.mean()], then [int(avg)] when
    [pd.notna(avg)] and "N/A" otherwise. *)
Definition show_mean (entries : list num) : result metric :=
  match mean entries with
  | Some avg => z ← to_int avg; Ok (Shown z)
  | None => Ok NotAvailable
  end.

(** Lines 127-136 and 138-147: the average metric on column [c]. *)
Definition avg_metric (filtered : DataFrame) (c : label) : result metric :=
  if has filtered c then
    s ← series_of TypeError filtered c;
    let numeric := to_numeric s in
    show_mean (numbers (dropna numeric))
  else Ok NotAvailable.

(** ** What is assumed of the numbers *)

(** A number that no dtype conversion changes: anything but an integer of
    magnitude above 2^53 (such an integer is rounded when its column becomes
    a float column). *)
Definition exact (x : num) : Prop := ∀ z, x = of_int z → Numeric.small z.

(** Cell [v'] is cell [v] after a dtype conversion of its column: a null is
    a null, a string is the same string, a number is a number, and the same
    number when it is exact. *)
Definition same_cell (v v' : value) : Prop :=
  match v with
  | NaN => v' = NaN
  | Str s => v' = Str s
  | Num x => ∃ y, v' = Num y ∧ (exact x → y = x)
  end.

(** The cells [pd.to_numeric] turns into a number. *)
Definition numeric_cell (v : value) : bool :=
  match v with
  | NaN => false
  | Num _ => true
  | Str s => numeric_str s
  end.

(** Cell [v'] is what [pd.to_numeric(..., errors="coerce")] makes of cell
    [v]: numbers and nulls are kept (up to the dtype of the result), a
    string becomes the number it spells and null when it spells none; a
    decimal integer literal spells that integer. *)
Definition coerced (v v' : value) : Prop :=
  match v with
  | Str s =>
      if numeric_str s
      then ∃ y, v' = Num y
                ∧ ∀ z, Numeric.parse_int s = Some z → Numeric.small z →
                       y = of_int z
      else v' = NaN
  | _ => same_cell v v'
  end.

Class NumbersLaws : Prop := {
  (** Different integers are different numbers. *)
  of_int_inj :: Inj (=) (=) of_int;
  (** A decimal integer literal is read as a number. *)
  numeric_str_literal s z :
    Numeric.parse_int s = Some z → numeric_str s = true;
  (** A string with no digit and no [i] is not. *)
  numeric_str_plain s : Numeric.plain s → numeric_str s = false;
  (** [pd.to_numeric] coerces cell by cell and keeps the length. *)
  to_numeric_coerced s : Forall2 coerced s (to_numeric s);
  (** [pd.concat] puts the blocks one after the other and changes a cell
      by a dtype conversion only. *)
  concat_values_cells blocks :
    Forall2 (Forall2 same_cell) (mjoin blocks) (concat_values blocks);
  (** Numbers are totally ordered. *)
  num_le_total :: Total num_le;
  (** The mean of an empty series is NaN. *)
  mean_nil : mean [] = None
}.

(** ** Well-formed frames *)

(** Every row has one cell per column. *)
Definition rectangular (df : DataFrame) : Prop :=
  Forall (fun r => length r = length (columns df)) (rows df).

(** What [pd.read_csv] returns: a rectangular frame whose labels are
    pairwise distinct (the reader renames repeated header names). *)
Definition well_formed (df : DataFrame) : Prop :=
  NoDup (columns df) ∧ rectangular df.

(** What cleaning does to one character that survives trimming: blanks and
    periods become underscores, every other character is lower-cased. *)
Definition clean_char (c : ascii) : ascii :=
  if Ascii.eqb c " " then "_"%char
  else if Ascii.eqb c "." then "_"%char
  else PyStr.lower_char c.

(** The [if]/[elif] chain of [map_semantic] as a function of the label. *)
Definition synonym (c : label) : option label :=
  if bool_decide (c ∈ ["state"; "state_name"]) then Some "state"
  else if bool_decide (c ∈ ["party"; "party_name"]) then Some "party"
  else if bool_decide (c ∈ ["votes"; "total_votes"; "valid_votes"])
       then Some "votes"
  else if bool_decide (c ∈ ["margin"; "vote_margin"; "winning_margin"])
       then Some "margin"
  else None.

Definition canonical (c : label) : label := default c (synonym c).

(** The frame of one year as [load_data] passes it to [pd.concat]: cleaned,
    mapped and tagged. *)
Definition prepared (year : Z) (df : DataFrame) : DataFrame :=
  setitem_scalar (map_semantic (normalize df)) "year" (Num (of_int year)).

(** Row [r'], laid out on the columns [new_cols], carries row [r] of a frame
    with columns [src_cols]: the cells of [r], up to a dtype conversion,
    under every label of the source and null under every other label. *)
Definition carries (src_cols new_cols : list label) (r r' : list value)
  : Prop :=
  length r' = length new_cols ∧
  ∀ l, if decide (l ∈ src_cols)
       then Forall2 same_cell (cells_at src_cols l r) (cells_at new_cols l r')
       else Forall (fun v => v = NaN) (cells_at new_cols l r').

(** A row is tagged with year [y]: it has a cell under [year] and every such
    cell holds [y]. *)
Definition tagged (cols : list label) (y : Z) (r : list value) : Prop :=
  cells_at cols "year" r ≠ [] ∧
  Forall (fun v => v = Num (of_int y)) (cells_at cols "year" r).

(** Row [r'] of the unioned table is row [r] of the dataset of year [y],
    whose mapped frame has the columns [m_cols]: it is tagged with [y], holds
    the cells of [r], up to a dtype conversion, under every other label of
    the dataset and null under every label the dataset lacks. *)
Definition laid_out (m_cols u_cols : list label) (y : Z) (r r' : list value)
  : Prop :=
  length r' = length u_cols ∧ tagged u_cols y r' ∧
  ∀ l, l ≠ "year" →
       if decide (l ∈ m_cols)
       then Forall2 same_cell (cells_at m_cols l r) (cells_at u_cols l r')
       else Forall (fun v => v = NaN) (cells_at u_cols l r').

(** A raw dataset has a column that cleaning and mapping turn into [fld]. *)
Definition has_field (raw : DataFrame) (fld : label) : Prop :=
  ∃ l, l ∈ columns raw ∧ canonical (clean l) = fld.

(** The column at position [i] of some rows. *)
Definition column (i : nat) (rs : list (list value)) : list value :=
  (fun r => cell r i) <$> rs.

(** The values of a list can be sorted: no string next to a non-string. *)
Definition comparable (s : list value) : Prop :=
  ∀ a b, a ∈ s → b ∈ s → is_str a = is_str b.

(** The rows whose cell at position [i] equals [v]. *)
Definition select (i : nat) (v : value) (df : DataFrame) : DataFrame :=
  {| columns := columns df;
     rows := filter (fun r => py_eqb (cell r i) v = true) (rows df) |}.

(** The entries an average is computed from:
    [pd.to_numeric(s, errors="coerce").dropna()]. *)
Definition usable (s : list value) : list num :=
  numbers (dropna (to_numeric s)).

(** Row [r'] is row [r] with the number [pd.to_numeric] made of its cell at
    position [i] written there. *)
Definition sanitized (i : nat) (r r' : list value) : Prop :=
  ∃ y, r' = <[i := Num y]> r ∧ coerced (cell r i) (Num y).

(** A cell that no dtype conversion changes. *)
Definition settled (v : value) : Prop :=
  match v with Num x => exact x | _ => True end.

(** Cells on which [pd.to_numeric] is pinned by what is assumed of it:
    nulls, exact numbers, plain strings and small integer literals; [w] is
    what it makes of [v]. *)
Definition reads (v w : value) : Prop :=
  match v with
  | NaN => w = NaN
  | Num x => exact x ∧ w = Num x
  | Str s =>
      (Numeric.plain s ∧ w = NaN)
      ∨ ∃ z, Numeric.parse_int s = Some z ∧ Numeric.small z
             ∧ w = Num (of_int z)
  end.

(** A dataset after label cleaning and semantic mapping. *)
Abbreviation mapped df := (map_semantic (normalize df)).

(** ** Selection boxes, counters and preview *)

Fixpoint strings (s : list value) : list string :=
  match s with
  | [] => []
  | Str x :: s' => x :: strings s'
  | _ :: s' => strings s'
  end.

(** Python's [<=] on two strings: lexicographic on code points. *)
Definition str_le (x y : string) : Prop := String.leb x y = true.

Global Instance str_le_dec : RelDecision str_le.
Proof. intros x y. unfold str_le. apply _. Defined.

(** Python's [<=] on two cells of one kind. *)
Definition value_le (a b : value) : Prop :=
  match a, b with
  | Num x, Num y => num_le x y
  | Str x, Str y => str_le x y
  | _, _ => False
  end.

(** The choices of a sidebar box, lines 95 and 106:
    [["All"] + sorted(s.dropna().unique())].  The values to sort are distinct
    and hold no null; sorting them raises as [sorted_check] says, and
    otherwise they are all strings or all numbers. *)
Definition box_options (s : list value) : result (list value) :=
  let vals := unique (dropna s) in
  _ ← sorted_check vals;
  Ok (All :: if forallb is_str vals
             then Str <$> merge_sort str_le (strings vals)
             else Num <$> merge_sort num_le (numbers vals)).

(** [s.nunique()]: the number of distinct values that are not null. *)
Definition nunique (s : list value) : nat := length (unique (dropna s)).

Inductive counter : Type :=
| CountNotAvailable
| Count (n : nat).

(** Line 120: [filtered.shape[0]]. *)
Definition records_metric (filtered : DataFrame) : nat :=
  length (rows filtered).

(** Lines 122-125.  On a frame (several columns labelled [party])
    [.nunique()] gives one count per column, which [st.metric] rejects with
    [TypeError]; the script never gets there, the party box having failed
    before. *)
Definition parties_metric (filtered : DataFrame) : result counter :=
  if has filtered "party" then
    s ← series_of TypeError filtered "party";
    Ok (Count (nunique s))
  else Ok CountNotAvailable.

Record kpis : Type := mkKpis {
  kpi_records : nat;
  kpi_parties : counter;
  kpi_avg_votes : metric;
  kpi_avg_margin : metric
}.

(** Lines 84-147: the four metrics the script shows for a table and the
    choices made in the sidebar. *)
Definition dashboard_kpis (df : DataFrame) (ctl : controls) : result kpis :=
  filtered ← filtered_view df ctl;
  parties ← parties_metric filtered;
  votes ← avg_metric filtered "votes";
  margin ← avg_metric filtered "margin";
  Ok {| kpi_records := records_metric filtered;
        kpi_parties := parties;
        kpi_avg_votes := votes;
        kpi_avg_margin := margin |}.

(** [df.head(n)] *)
Definition head_rows (n : nat) (df : DataFrame) : DataFrame :=
  {| columns := columns df; rows := firstn n (rows df) |}.

(** Line 195: the data preview. *)
Definition preview (filtered : DataFrame) : DataFrame := head_rows 20 filtered.

(** A row passes the box on label [c]: there is no such column, or the
    choice is "All", or its cells under [c] equal the choice. *)
Definition passes (cols : list label) (c : label) (choice : value)
    (r : list value) : Prop :=
  c ∉ cols ∨ choice = All
  ∨ Forall (fun x => py_eqb x choice = true) (cells_at cols c r).

Context {L : NumbersLaws}.

(** * Properties *)

(** ** Label cleaning *)

Section Cleaning.

Import PyStr.

Local Ltac ascii_cases c :=
  destruct c as [[] [] [] [] [] [] [] []]; vm_compute; try congruence.

Lemma lstrip_split l :
  ∃ pre, l = (pre ++ lstrip l)%list ∧ Forall (fun c => isspace c = true) pre.
Proof.
  induction l as [|c l [pre [Heq Hpre]]]; simpl.
  - exists []. split; [done | constructor].
  - destruct (isspace c) eqn:Hc.
    + exists (c :: pre). split; [simpl; congruence | by constructor].
    + exists []. split; [done | constructor].
Qed.

Lemma lstrip_head l c : head (lstrip l) = Some c → isspace c = false.
Proof.
  induction l as [|a l IH]; simpl; [done|].
  destruct (isspace a) eqn:Ha; [done|]. simpl. congruence.
Qed.

Lemma lstrip_id l :
  (∀ c, head l = Some c → isspace c = false) → lstrip l = l.
Proof.
  destruct l as [|a l]; simpl; [done|]. intros H. by rewrite (H a).
Qed.

Lemma rstrip_split l :
  ∃ post, l = (rstrip l ++ post)%list
          ∧ Forall (fun c => isspace c = true) post.
Proof.
  unfold rstrip. destruct (lstrip_split (reverse l)) as [pre [Heq Hpre]].
  exists (reverse pre). split.
  - rewrite <- reverse_app, <- Heq. by rewrite reverse_involutive.
  - rewrite Forall_forall in Hpre. apply Forall_forall.
    intros x Hx. apply Hpre. by apply elem_of_reverse.
Qed.

Lemma rstrip_last l c : last (rstrip l) = Some c → isspace c = false.
Proof.
  unfold rstrip. rewrite last_reverse. apply lstrip_head.
Qed.

Lemma rstrip_id l :
  (∀ c, last l = Some c → isspace c = false) → rstrip l = l.
Proof.
  intros H. unfold rstrip. rewrite lstrip_id; [apply reverse_involutive|].
  intros c. rewrite head_reverse. apply H.
Qed.

Lemma rstrip_head l c :
  (∀ a, head l = Some a → isspace a = false) →
  head (rstrip l) = Some c → isspace c = false.
Proof.
  intros Hl Hc. destruct (rstrip_split l) as [post [Heq _]].
  apply Hl. rewrite Heq. destruct (rstrip l); [done | exact Hc].
Qed.

Lemma strip_head l c : head (strip l) = Some c → isspace c = false.
Proof. apply rstrip_head, lstrip_head. Qed.

Lemma strip_last l c : last (strip l) = Some c → isspace c = false.
Proof. apply rstrip_last. Qed.

Lemma strip_split l :
  ∃ pre post, l = (pre ++ strip l ++ post)%list
              ∧ Forall (fun c => isspace c = true) pre
              ∧ Forall (fun c => isspace c = true) post.
Proof.
  destruct (lstrip_split l) as [pre [Hl Hpre]].
  destruct (rstrip_split (lstrip l)) as [post [Hr Hpost]].
  exists pre, post. unfold strip. by rewrite <- Hr.
Qed.

Lemma strip_id l :
  (∀ c, head l = Some c → isspace c = false) →
  (∀ c, last l = Some c → isspace c = false) →
  strip l = l.
Proof.
  intros Hh Hl. unfold strip. rewrite (lstrip_id l Hh). by apply rstrip_id.
Qed.

Lemma clean_chars_map l : clean_chars l = map clean_char (strip l).
Proof.
  unfold clean_chars, replace_char, lower. rewrite !map_map.
  apply map_ext. intros c. ascii_cases c.
Qed.

Lemma clean_char_idemp c : clean_char (clean_char c) = clean_char c.
Proof. ascii_cases c. Qed.

Lemma clean_char_not_space c :
  isspace c = false → isspace (clean_char c) = false.
Proof. ascii_cases c. Qed.

Lemma clean_chars_idemp l : clean_chars (clean_chars l) = clean_chars l.
Proof.
  rewrite !clean_chars_map. rewrite strip_id.
  - rewrite map_map. apply map_ext. intros c. apply clean_char_idemp.
  - intros c Hc. pose proof (strip_head l) as Hs.
    destruct (strip l) as [|a l']; simplify_eq/=.
    by apply clean_char_not_space, Hs.
  - intros c. change (map clean_char (strip l)) with (clean_char <$> strip l).
    rewrite fmap_last. destruct (last (strip l)) as [a|] eqn:Ha; [|done].
    intros [= <-]. by apply clean_char_not_space, (strip_last l).
Qed.

Lemma clean_idemp x : clean (clean x) = clean x.
Proof.
  unfold clean. rewrite list_ascii_of_string_of_list_ascii.
  by rewrite clean_chars_idemp.
Qed.

End Cleaning.

(** ** Positions and cells *)

Section Cells.

Implicit Types (cols : list label) (r : list value) (c l : label).

Lemma positions_from_S i c cols :
  positions_from (S i) c cols = S <$> positions_from i c cols.
Proof.
  revert i. induction cols as [|l cols IH]; intros i; simpl; [done|].
  case_decide; simpl; by rewrite IH.
Qed.

Lemma positions_cons l c cols :
  positions c (l :: cols)
  = ((if decide (l = c) then [0%nat] else []) ++ (S <$> positions c cols))%list.
Proof.
  unfold positions. simpl. rewrite positions_from_S. by case_decide.
Qed.

Lemma positions_absent c cols : c ∉ cols → positions c cols = [].
Proof.
  induction cols as [|l cols IH]; [done|].
  intros [Hne Hnin]%not_elem_of_cons. rewrite positions_cons, IH by done.
  by rewrite decide_False.
Qed.

Lemma positions_nil_absent c cols : positions c cols = [] → c ∉ cols.
Proof.
  induction cols as [|l cols IH]; [intros _; apply not_elem_of_nil|].
  rewrite positions_cons. case_decide as Hd; [done|]. simpl.
  intros Hn%fmap_nil_inv. apply not_elem_of_cons. split; [done | by apply IH].
Qed.

Lemma positions_lookup c cols j : j ∈ positions c cols → cols !! j = Some c.
Proof.
  revert j. induction cols as [|l cols IH]; intros j.
  - intros H. by apply elem_of_nil in H.
  - rewrite positions_cons, elem_of_app, list_elem_of_fmap.
    intros [Hj|[k [-> Hk]]].
    + case_decide as Hd; [|by apply elem_of_nil in Hj].
      apply list_elem_of_singleton in Hj. by subst.
    + simpl. by apply IH.
Qed.

Lemma positions_NoDup c cols :
  NoDup cols → c ∈ cols → ∃ i, positions c cols = [i].
Proof.
  induction cols as [|l cols IH]; [intros _ H; by apply elem_of_nil in H|].
  intros [Hl Hnd]%NoDup_cons Hin. rewrite positions_cons.
  case_decide as Heq.
  - subst l. rewrite positions_absent by done. by exists 0%nat.
  - apply elem_of_cons in Hin as [?|Hin]; [congruence|].
    destruct (IH Hnd Hin) as [i ->]. by exists (S i).
Qed.

Lemma positions_find c cols :
  fst <$> list_find (fun l => l = c) cols = head (positions c cols).
Proof.
  induction cols as [|l cols IH]; [done|].
  rewrite positions_cons. simpl. case_decide; [done|]. simpl.
  rewrite <- option_fmap_compose.
  transitivity (S <$> (fst <$> list_find (fun l => l = c) cols)).
  - rewrite <- option_fmap_compose. by destruct (list_find _ cols) as [[]|].
  - rewrite IH. by destruct (positions c cols).
Qed.

Lemma cells_at_cons l cols c x r :
  cells_at (l :: cols) c (x :: r)
  = ((if decide (l = c) then [x] else []) ++ cells_at cols c r)%list.
Proof.
  unfold cells_at. rewrite positions_cons, fmap_app, <- list_fmap_compose.
  by case_decide.
Qed.

Lemma cells_at_nil_row cols c :
  cells_at cols c [] = replicate (length (positions c cols)) NaN.
Proof.
  unfold cells_at. induction (positions c cols); simpl; [done|]. by f_equal.
Qed.

Lemma cells_at_length cols c r :
  length (cells_at cols c r) = length (positions c cols).
Proof. unfold cells_at. by rewrite length_fmap. Qed.

(** Cells under another label are not touched by [overwrite]. *)
Lemma cells_at_overwrite_ne cols c v r l :
  l ≠ c → cells_at cols l (overwrite cols c v r) = cells_at cols l r.
Proof.
  intros Hne. revert r. induction cols as [|l0 cols IH]; intros r; [done|].
  destruct r as [|x r].
  - unfold overwrite. by rewrite zip_with_nil_r.
  - unfold overwrite in *. simpl. rewrite !cells_at_cons, IH.
    repeat case_decide; congruence.
Qed.

(** Cells under the overwritten label all hold the new value. *)
Lemma cells_at_overwrite_eq cols c v r :
  length r = length cols →
  cells_at cols c (overwrite cols c v r)
  = replicate (length (positions c cols)) v.
Proof.
  revert r. induction cols as [|l0 cols IH]; intros [|x r] Hlen;
    simplify_eq/=; [done|].
  unfold overwrite in *. simpl. rewrite cells_at_cons, positions_cons, IH by done.
  case_decide; simpl; by rewrite ?length_fmap.
Qed.

Lemma overwrite_length cols c v r :
  length r = length cols → length (overwrite cols c v r) = length cols.
Proof. intros H. unfold overwrite. rewrite length_zip_with. lia. Qed.

(** A new last column. *)
Lemma cells_at_snoc cols c v r l :
  length r = length cols →
  cells_at (cols ++ [c]) l (r ++ [v])
  = (cells_at cols l r ++ (if decide (c = l) then [v] else []))%list.
Proof.
  revert r. induction cols as [|l0 cols IH]; intros [|x r] Hlen;
    simplify_eq/=.
  - rewrite cells_at_cons. unfold cells_at, positions. simpl.
    by rewrite app_nil_r.
  - rewrite !cells_at_cons, IH by done. by rewrite app_assoc.
Qed.

(** A row computed label by label. *)
Lemma cells_at_fmap cols (h : label → value) l :
  cells_at cols l (h <$> cols) = replicate (length (positions l cols)) (h l).
Proof.
  induction cols as [|l0 cols IH]; [done|].
  rewrite fmap_cons, cells_at_cons, positions_cons, IH.
  case_decide; subst; simpl; by rewrite ?length_fmap.
Qed.

End Cells.

(** ** Semantic mapping *)

Section Mapping.

Lemma rename_step_lookup (m : gmap label label) a c :
  rename_step m a !! c
  = if decide (a = c)
    then match synonym c with Some k => Some k | None => m !! c end
    else m !! c.
Proof.
  unfold rename_step, synonym.
  case_decide as Hac; [subst a|];
    repeat case_bool_decide; simplify_map_eq; done.
Qed.

Lemma rename_dict_lookup_from (m : gmap label label) cols c :
  foldl rename_step m cols !! c
  = if decide (c ∈ cols)
    then match synonym c with Some k => Some k | None => m !! c end
    else m !! c.
Proof.
  revert m. induction cols as [|a cols IH]; intros m; simpl; [done|].
  rewrite IH, rename_step_lookup.
  destruct (decide (a = c)) as [->|Hne].
  - rewrite (decide_True (P := c ∈ c :: cols)) by apply list_elem_of_here.
    case_decide; by destruct (synonym c).
  - destruct (decide (c ∈ cols)) as [Hin|Hnin].
    + by rewrite decide_True by by apply list_elem_of_further.
    + rewrite decide_False; [done|]. apply not_elem_of_cons. by split.
Qed.

Lemma rename_dict_lookup cols c :
  c ∈ cols → default c (rename_dict cols !! c) = canonical c.
Proof.
  intros Hin. unfold rename_dict, canonical.
  rewrite rename_dict_lookup_from, decide_True by done.
  by destruct (synonym c).
Qed.

Lemma map_semantic_columns df :
  columns (map_semantic df) = canonical <$> columns df.
Proof.
  unfold map_semantic, rename_columns. simpl.
  apply list_fmap_ext. intros i c Hc.
  apply rename_dict_lookup. by eapply list_elem_of_lookup_2.
Qed.

Lemma map_semantic_rows df : rows (map_semantic df) = rows df.
Proof. done. Qed.

Lemma canonical_outside c : synonym c = None → canonical c = c.
Proof. unfold canonical. by intros ->. Qed.

End Mapping.

(** ** Distinct labels and the column index of a concatenation *)

Section Union.

Context {A : Type} `{EqDecision A}.

Lemma elem_of_unique_from (x : A) seen l :
  x ∈ unique_from seen l ↔ x ∈ l ∧ x ∉ seen.
Proof.
  revert seen. induction l as [|y l IH]; intros seen; simpl.
  - split; [intros H; by apply elem_of_nil in H|].
    intros [H _]. by apply elem_of_nil in H.
  - case_decide as Hy.
    + rewrite IH, elem_of_cons. split; [naive_solver|].
      intros [[->|Hx] Hs]; [done | by split].
    + rewrite !elem_of_cons, IH, not_elem_of_cons. split.
      * intros [->|[Hx [Hne Hs]]]; [by split; [left|] | by split; [right|]].
      * intros [[->|Hx] Hs]; [by left|].
        destruct (decide (x = y)) as [->|Hne]; [by left | by right].
Qed.

Lemma NoDup_unique_from (seen l : list A) : NoDup (unique_from seen l).
Proof.
  revert seen. induction l as [|y l IH]; intros seen; simpl;
    [constructor|].
  case_decide; [apply IH|]. apply NoDup_cons. split; [|apply IH].
  rewrite elem_of_unique_from, not_elem_of_cons. naive_solver.
Qed.

Lemma elem_of_unique (x : A) l : x ∈ unique l ↔ x ∈ l.
Proof.
  unfold unique. rewrite elem_of_unique_from.
  split; [naive_solver|]. intros H. split; [done | apply not_elem_of_nil].
Qed.

End Union.

Lemma union_indexes_3 (a b c : list label) :
  let new := union_indexes [a; b; c] in
  (∀ l, l ∈ new ↔ l ∈ a ∨ l ∈ b ∨ l ∈ c)
  ∧ ((a = new ∧ b = new ∧ c = new) ∨ NoDup new).
Proof.
  unfold union_indexes. case_bool_decide as Hall.
  - apply Forall_cons in Hall as [-> Hall].
    apply Forall_cons in Hall as [-> _]. simpl. split; [naive_solver|by left].
  - split; [|right; apply NoDup_unique_from].
    intros l. rewrite elem_of_unique. simpl.
    rewrite !elem_of_app, elem_of_nil. naive_solver.
Qed.

(** ** Dtype conversions *)

Section Conversions.

Lemma Forall2_compose {A B C} (P : A → B → Prop) (Q : B → C → Prop)
    (S : A → C → Prop) l k m :
  (∀ x y z, P x y → Q y z → S x z) →
  Forall2 P l k → Forall2 Q k m → Forall2 S l m.
Proof.
  intros HS HP. revert m.
  induction HP; intros m HQ; inv HQ; constructor; eauto.
Qed.

Lemma same_cell_refl v : same_cell v v.
Proof. destruct v; simpl; eauto. Qed.

Lemma same_cell_trans v1 v2 v3 :
  same_cell v1 v2 → same_cell v2 v3 → same_cell v1 v3.
Proof.
  destruct v1 as [|x|s]; simpl.
  - by intros ->.
  - intros (y & -> & Hy). simpl. intros (w & -> & Hw).
    exists w. split; [done|]. intros Hx.
    specialize (Hy Hx). subst y. by apply Hw.
  - by intros ->.
Qed.

Lemma same_cell_settled v v' : settled v → same_cell v v' → v' = v.
Proof.
  destruct v as [|x|s]; simpl; [done| |done].
  intros Hx (y & -> & Hy). by rewrite Hy.
Qed.

Lemma exact_of_int z : Numeric.small z → exact (of_int z).
Proof. intros Hz z' Heq. apply (inj of_int) in Heq. by subst z'. Qed.

Lemma settled_of_int z : Numeric.small z → settled (Num (of_int z)).
Proof. apply exact_of_int. Qed.

Lemma same_cells_refl s : Forall2 same_cell s s.
Proof. apply Forall_Forall2_diag, Forall_forall. intros v _. apply same_cell_refl. Qed.

Lemma same_cells_settled s s' :
  Forall settled s → Forall2 same_cell s s' → s' = s.
Proof.
  intros Hs HF. induction HF as [|v v' s s' Hv _ IH]; [done|].
  apply Forall_cons in Hs as [Hv0 Hs].
  by rewrite (same_cell_settled v v' Hv0 Hv), IH.
Qed.

Lemma same_cells_nulls s s' :
  Forall (fun v => v = NaN) s → Forall2 same_cell s s' →
  Forall (fun v => v = NaN) s'.
Proof.
  intros Hs HF. induction HF as [|v v' s s' Hv _ IH]; [constructor|].
  apply Forall_cons in Hs as [-> Hs]. constructor; [exact Hv | by apply IH].
Qed.

Lemma same_cell_lookup r r' j :
  Forall2 same_cell r r' → same_cell (cell r j) (cell r' j).
Proof.
  intros HF. unfold cell. rewrite Forall2_lookup in HF.
  destruct (HF j); simpl; done.
Qed.

Lemma same_cell_cells cols l r r' :
  Forall2 same_cell r r' →
  Forall2 same_cell (cells_at cols l r) (cells_at cols l r').
Proof.
  intros HF. unfold cells_at. apply Forall2_fmap, Forall_Forall2_diag.
  apply Forall_forall. intros j _. by apply same_cell_lookup.
Qed.

(** The data of a concatenation of three blocks: three blocks again, each
    a cell-by-cell conversion of the one it comes from. *)
Lemma concat_values_3 Ra Rb Rc :
  ∃ Ra' Rb' Rc',
    concat_values [Ra; Rb; Rc] = (Ra' ++ Rb' ++ Rc')%list
    ∧ Forall2 (Forall2 same_cell) Ra Ra'
    ∧ Forall2 (Forall2 same_cell) Rb Rb'
    ∧ Forall2 (Forall2 same_cell) Rc Rc'.
Proof.
  pose proof (concat_values_cells [Ra; Rb; Rc]) as HF.
  simpl in HF. rewrite app_nil_r in HF.
  apply Forall2_app_inv_l in HF as (Ra' & rest & Ha & HF & ->).
  apply Forall2_app_inv_l in HF as (Rb' & Rc' & Hb & Hc & ->).
  by exists Ra', Rb', Rc'.
Qed.

Lemma same_rows_settled (rs rs' : list (list value)) :
  Forall (Forall settled) rs → Forall2 (Forall2 same_cell) rs rs' → rs' = rs.
Proof.
  intros Hs HF. induction HF as [|r r' rs rs' Hr _ IH]; [done|].
  apply Forall_cons in Hs as [Hr0 Hs].
  by rewrite (same_cells_settled r r' Hr0 Hr), IH.
Qed.

(** Blocks of settled cells are concatenated as they are. *)
Lemma concat_values_settled blocks :
  Forall (Forall (Forall settled)) blocks →
  concat_values blocks = mjoin blocks.
Proof.
  intros Hs. apply same_rows_settled; [|apply concat_values_cells].
  by apply Forall_join.
Qed.

End Conversions.

(** ** Concatenation *)

Section Concat.

Lemma carries_same cols r : length r = length cols → carries cols cols r r.
Proof.
  intros Hlen. split; [done|]. intros l. case_decide; [apply same_cells_refl|].
  unfold cells_at. rewrite positions_absent by done. constructor.
Qed.

Lemma carries_convert src new r r0 r' :
  carries src new r r0 → Forall2 same_cell r0 r' → carries src new r r'.
Proof.
  intros [Hlen Hc] HF. split.
  - rewrite <- Hlen. symmetry. by eapply Forall2_length.
  - intros l. specialize (Hc l).
    pose proof (same_cell_cells new l r0 r' HF) as Hl.
    case_decide.
    + eapply Forall2_compose; [|exact Hc|exact Hl]. apply same_cell_trans.
    + by eapply same_cells_nulls.
Qed.

Lemma Forall_replicate_NaN n : Forall (fun v => v = NaN) (replicate n NaN).
Proof. induction n; simpl; by constructor. Qed.

Lemma align_carries new obj R :
  align new obj = Ok R →
  rectangular obj →
  columns obj = new ∨ NoDup new →
  (∀ l, l ∈ columns obj → l ∈ new) →
  Forall2 (carries (columns obj) new) (rows obj) R.
Proof.
  unfold align. intros Hal Hrect Hor Hsub. case_bool_decide as Heq.
  - injection Hal as <-. subst new. apply Forall_Forall2_diag.
    eapply Forall_impl; [exact Hrect|]. intros r Hr. by apply carries_same.
  - unfold get_indexer in Hal. case_bool_decide as Hnd; [|done].
    simpl in Hal. injection Hal as <-.
    destruct Hor as [?|Hnew]; [done|].
    apply Forall2_fmap_r, Forall_Forall2_diag, Forall_forall.
    intros r _. unfold take, compose. rewrite <- list_fmap_compose. split.
    + by rewrite length_fmap.
    + intros l. rewrite cells_at_fmap. simpl. rewrite positions_find.
      case_decide as Hin.
      * destruct (positions_NoDup l (columns obj) Hnd Hin) as [i Hi].
        destruct (positions_NoDup l new Hnew (Hsub _ Hin)) as [j Hj].
        unfold cells_at. rewrite Hi, Hj. simpl.
        repeat constructor. apply same_cell_refl.
      * rewrite (positions_absent l (columns obj)) by done. simpl.
        apply Forall_replicate_NaN.
Qed.

Lemma concat_3 a b c u :
  concat [a; b; c] = Ok u →
  ∃ Ra Rb Rc,
    columns u = union_indexes [columns a; columns b; columns c]
    ∧ rows u = concat_values [Ra; Rb; Rc]
    ∧ align (columns u) a = Ok Ra
    ∧ align (columns u) b = Ok Rb
    ∧ align (columns u) c = Ok Rc.
Proof.
  unfold concat.
  change (columns <$> [a; b; c]) with [columns a; columns b; columns c].
  generalize (union_indexes [columns a; columns b; columns c]).
  intros new. simpl.
  destruct (align new a) as [Ra|] eqn:Ha; simpl; [|done].
  destruct (align new b) as [Rb|] eqn:Hb; simpl; [|done].
  destruct (align new c) as [Rc|] eqn:Hc; simpl; [|done].
  simpl. intros [= <-]. by exists Ra, Rb, Rc.
Qed.

(** What [pd.concat] of three rectangular frames holds when it returns. *)
Lemma concat_carries a b c u :
  rectangular a → rectangular b → rectangular c →
  concat [a; b; c] = Ok u →
  (∀ l, l ∈ columns u ↔ l ∈ columns a ∨ l ∈ columns b ∨ l ∈ columns c)
  ∧ ∃ Ra Rb Rc,
      rows u = (Ra ++ Rb ++ Rc)%list
      ∧ Forall2 (carries (columns a) (columns u)) (rows a) Ra
      ∧ Forall2 (carries (columns b) (columns u)) (rows b) Rb
      ∧ Forall2 (carries (columns c) (columns u)) (rows c) Rc.
Proof.
  intros Hra Hrb Hrc Hcat.
  destruct (concat_3 _ _ _ _ Hcat) as (Ra & Rb & Rc & Hcols & Hrows & Ha & Hb & Hc).
  destruct (union_indexes_3 (columns a) (columns b) (columns c))
    as [Hmem Hshape].
  rewrite <- Hcols in Hmem, Hshape. split; [exact Hmem|].
  destruct (concat_values_3 Ra Rb Rc) as (Ra' & Rb' & Rc' & Hcv & Ca & Cb & Cc).
  exists Ra', Rb', Rc'. split; [by rewrite Hrows|].
  assert (Hconv : ∀ src rs R R',
            Forall2 (carries src (columns u)) rs R →
            Forall2 (Forall2 same_cell) R R' →
            Forall2 (carries src (columns u)) rs R').
  { intros src rs R R'. apply Forall2_compose.
    intros r r0 r'. apply carries_convert. }
  split; [|split].
  - eapply Hconv; [|exact Ca].
    apply align_carries; [done..| |]; [naive_solver|].
    intros l Hl. apply Hmem. by left.
  - eapply Hconv; [|exact Cb].
    apply align_carries; [done..| |]; [naive_solver|].
    intros l Hl. apply Hmem. by right; left.
  - eapply Hconv; [|exact Cc].
    apply align_carries; [done..| |]; [naive_solver|].
    intros l Hl. apply Hmem. by right; right.
Qed.

(** [pd.concat] returns as soon as no frame repeats a label. *)
Lemma concat_total a b c :
  NoDup (columns a) → NoDup (columns b) → NoDup (columns c) →
  ∃ u, concat [a; b; c] = Ok u.
Proof.
  intros Ha Hb Hc. unfold concat, align, get_indexer. simpl.
  rewrite !(bool_decide_eq_true_2 (NoDup _)) by done.
  repeat case_bool_decide; simpl; eauto.
Qed.

End Concat.

(** ** Column assignment: the year tag and the coerced margin *)

Section Assignment.

Lemma setitem_scalar_unfold df c v :
  setitem_scalar df c v
  = if has df c
    then {| columns := columns df;
            rows := overwrite (columns df) c v <$> rows df |}
    else {| columns := (columns df ++ [c])%list;
            rows := (fun r => (r ++ [v])%list) <$> rows df |}.
Proof.
  unfold setitem_scalar, setitem. by rewrite !zip_with_replicate_l by done.
Qed.

Lemma Forall_replicate_eq (v : value) n :
  Forall (fun x => x = v) (replicate n v).
Proof. induction n; simpl; by constructor. Qed.

Lemma setitem_scalar_spec df c v :
  rectangular df →
  let d := setitem_scalar df c v in
  rectangular d
  ∧ (∀ l, l ∈ columns d ↔ l ∈ columns df ∨ l = c)
  ∧ positions c (columns d) ≠ []
  ∧ Forall2 (fun r r' =>
               (∀ l, l ≠ c →
                     cells_at (columns d) l r' = cells_at (columns df) l r)
               ∧ Forall (fun x => x = v) (cells_at (columns d) c r'))
            (rows df) (rows d).
Proof.
  intros Hrect d. subst d. rewrite setitem_scalar_unfold. unfold has.
  unfold rectangular in *. case_bool_decide as Hin; simpl.
  - repeat split.
    + apply Forall_fmap. eapply Forall_impl; [exact Hrect|].
      intros r Hr. simpl. by apply overwrite_length.
    + by left.
    + intros [? | ->]; done.
    + intros Hp. by apply positions_nil_absent in Hp.
    + apply Forall2_fmap_r, Forall_Forall2_diag.
      eapply Forall_impl; [exact Hrect|]. intros r Hr. split.
      * intros l Hl. by apply cells_at_overwrite_ne.
      * rewrite cells_at_overwrite_eq by done. apply Forall_replicate_eq.
  - repeat split.
    + apply Forall_fmap. eapply Forall_impl; [exact Hrect|].
      intros r Hr. simpl. rewrite !length_app, Hr. done.
    + rewrite elem_of_app, list_elem_of_singleton. tauto.
    + rewrite elem_of_app, list_elem_of_singleton. tauto.
    + intros Hp. apply positions_nil_absent in Hp. apply Hp.
      apply elem_of_app. right. by apply list_elem_of_singleton.
    + apply Forall2_fmap_r, Forall_Forall2_diag.
      eapply Forall_impl; [exact Hrect|]. intros r Hr. split.
      * intros l Hl. rewrite cells_at_snoc by done.
        rewrite decide_False by congruence. by rewrite app_nil_r.
      * rewrite cells_at_snoc by done. rewrite decide_True by done.
        unfold cells_at at 1. rewrite positions_absent by done.
        simpl. by repeat constructor.
Qed.

Lemma setitem_scalar_NoDup df c v :
  NoDup (columns df) → NoDup (columns (setitem_scalar df c v)).
Proof.
  intros Hnd. rewrite setitem_scalar_unfold. unfold has.
  case_bool_decide as Hin; simpl; [done|].
  apply NoDup_app. split; [done|]. split; [|apply NoDup_singleton].
  intros x Hx ->%list_elem_of_singleton. done.
Qed.

Lemma overwrite_absent cols c v r :
  c ∉ cols → length r = length cols → overwrite cols c v r = r.
Proof.
  revert r. induction cols as [|l cols IH]; intros [|x r] Hnin Hlen;
    simplify_eq/=; [done|].
  apply not_elem_of_cons in Hnin as [Hne Hnin].
  unfold overwrite in *. simpl. rewrite IH by done.
  by rewrite decide_False by congruence.
Qed.

Lemma overwrite_insert cols c v r i :
  positions c cols = [i] → length r = length cols →
  overwrite cols c v r = <[i:=v]> r.
Proof.
  revert r i. induction cols as [|l cols IH]; intros [|x r] i Hpos Hlen;
    simplify_eq/=.
  rewrite positions_cons in Hpos. case_decide as Hl; simpl in Hpos.
  - injection Hpos as <- Hrest. apply fmap_nil_inv in Hrest.
    apply positions_nil_absent in Hrest.
    unfold overwrite in *. simpl.
    f_equal. by apply overwrite_absent.
  - destruct (positions c cols) as [|j [|]] eqn:Hj; simplify_eq/=.
    unfold overwrite in *. simpl.
    f_equal. by apply IH.
Qed.

Lemma filter_fmap_iff {A B} (P : B → Prop) (Q : A → Prop)
    `{∀ x, Decision (P x)} `{∀ x, Decision (Q x)} (f : A → B) (l : list A) :
  Forall (fun x => P (f x) ↔ Q x) l →
  filter P (f <$> l) = f <$> filter Q l.
Proof.
  induction 1 as [|x l Hx Hl IH]; [done|].
  rewrite fmap_cons, !filter_cons, IH.
  destruct (decide (P (f x))), (decide (Q x)); naive_solver.
Qed.

Lemma zip_with_overwrite cols c i s rs :
  positions c cols = [i] →
  Forall (fun r => length r = length cols) rs →
  zip_with (overwrite cols c) s rs = zip_with (fun v r => <[i := v]> r) s rs.
Proof.
  intros Hpos HF. revert s.
  induction HF as [|r rs Hr _ IH]; intros [|v s]; simpl; try done.
  f_equal; [by apply overwrite_insert | apply IH].
Qed.

(** The 2024 sanitation on a frame with one column labelled [Margin]. *)
Lemma sanitize_margin_present d i :
  rectangular d →
  positions "Margin" (columns d) = [i] →
  sanitize_margin d
  = Ok {| columns := columns d;
          rows := filter (fun r => cell r i ≠ NaN)
                    (zip_with (fun v r => <[i := v]> r)
                              (to_numeric (column i (rows d))) (rows d)) |}.
Proof.
  intros Hrect Hpos.
  assert (Hin : "Margin" ∈ columns d).
  { destruct (decide ("Margin" ∈ columns d)) as [|Hn]; [done|].
    apply positions_absent in Hn. congruence. }
  unfold sanitize_margin, has, series_of.
  rewrite bool_decide_eq_true_2, Hpos by done.
  change (Ok ?x ≫= ?f) with (f x). cbv beta zeta.
  unfold setitem, has. rewrite bool_decide_eq_true_2 by done.
  unfold dropna_subset. cbn [columns rows]. do 2 f_equal.
  fold (column i (rows d)).
  rewrite (zip_with_overwrite _ _ i) by done.
  apply list_filter_iff. intros r. unfold cells_at. rewrite Hpos. simpl.
  by rewrite Forall_singleton.
Qed.

Lemma sanitize_margin_absent d :
  "Margin" ∉ columns d → sanitize_margin d = Ok d.
Proof.
  intros Hn. unfold sanitize_margin, has.
  by rewrite bool_decide_eq_false_2.
Qed.

Lemma coerced_kind v w :
  coerced v w → if numeric_cell v then ∃ y, w = Num y else w = NaN.
Proof.
  destruct v as [|x|s]; simpl; [done| |].
  - intros (y & -> & _). eauto.
  - destruct (numeric_str s); [|done]. intros (y & -> & _). eauto.
Qed.

(** Writing the coerced column back and dropping the rows it left null:
    the rows whose cell is read as a number stay, in their order. *)
Lemma sanitized_rows i rs ws :
  Forall (fun r => (i < length r)%nat) rs →
  Forall2 coerced (column i rs) ws →
  Forall2 (sanitized i)
          (filter (fun r => numeric_cell (cell r i) = true) rs)
          (filter (fun r => cell r i ≠ NaN)
                  (zip_with (fun v r => <[i := v]> r) ws rs)).
Proof.
  intros Hi HF. unfold column in HF. rewrite Forall2_fmap_l in HF.
  revert Hi. induction HF as [|r w rs' ws' Hrw HF IH]; intros Hi;
    [constructor|].
  apply Forall_cons in Hi as [Hr Hi]. simpl. rewrite !filter_cons.
  assert (Hc : cell (<[i := w]> r) i = w).
  { unfold cell. by rewrite list_lookup_insert_eq. }
  pose proof (coerced_kind _ _ Hrw) as Hk. rewrite Hc.
  destruct (numeric_cell (cell r i)) eqn:Hn.
  - destruct Hk as [y ->]. rewrite !decide_True by done.
    constructor; [by exists y | by apply IH].
  - subst w. rewrite !decide_False by (try done; by intros ?). by apply IH.
Qed.

Lemma sanitize_margin_rows d i :
  rectangular d →
  positions "Margin" (columns d) = [i] →
  ∃ d', sanitize_margin d = Ok d'
        ∧ columns d' = columns d
        ∧ Forall2 (sanitized i)
                  (filter (fun r => numeric_cell (cell r i) = true) (rows d))
                  (rows d').
Proof.
  intros Hrect Hpos. rewrite (sanitize_margin_present d i Hrect Hpos).
  eexists. split; [done|]. split; [done|]. simpl.
  apply sanitized_rows; [|apply to_numeric_coerced].
  eapply Forall_impl; [exact Hrect|]. intros r Hr. simpl in Hr. rewrite Hr.
  eapply lookup_lt_Some, positions_lookup. rewrite Hpos.
  apply list_elem_of_here.
Qed.

(** What the sanitation does, by the number of columns labelled
    [Margin]. *)
Lemma sanitize_margin_outcome d :
  ((2 ≤ length (positions "Margin" (columns d)))%nat →
   sanitize_margin d = Raise TypeError)
  ∧ ((length (positions "Margin" (columns d)) ≤ 1)%nat →
     ∃ d', sanitize_margin d = Ok d' ∧ columns d' = columns d).
Proof.
  unfold sanitize_margin, has, series_of. split; intros Hlen.
  - destruct (positions "Margin" (columns d)) as [|i [|j ps]] eqn:Hpos;
      simpl in Hlen; [lia..|].
    rewrite bool_decide_eq_true_2; [done|].
    destruct (decide ("Margin" ∈ columns d)) as [|Hn]; [done|].
    apply positions_absent in Hn. congruence.
  - case_bool_decide as Hin; [|eauto].
    destruct (positions "Margin" (columns d)) as [|i [|j ps]] eqn:Hpos;
      simpl in Hlen; [|simpl|lia].
    + apply positions_nil_absent in Hpos. done.
    + unfold setitem, has. rewrite bool_decide_eq_true_2 by done. eauto.
Qed.

(** Whenever the sanitation returns, the columns are those of its
    argument and the frame is still rectangular. *)
Lemma sanitize_margin_shape d d' :
  rectangular d → sanitize_margin d = Ok d' →
  columns d' = columns d ∧ rectangular d'
  ∧ (length (rows d') ≤ length (rows d))%nat.
Proof.
  intros Hrect Hs. destruct (decide ("Margin" ∈ columns d)) as [Hin|Hn].
  - destruct (positions "Margin" (columns d)) as [|i [|j ps]] eqn:Hpos.
    + apply positions_nil_absent in Hpos. done.
    + destruct (sanitize_margin_rows d i Hrect Hpos) as (d0 & Hs0 & Hcols & HF).
      rewrite Hs in Hs0. injection Hs0 as <-.
      split; [done|]. split.
      * unfold rectangular. rewrite Hcols.
        eapply Forall2_Forall_r; [exact HF|]. apply Forall_forall.
        intros r [_ Hr]%list_elem_of_filter r' (y & -> & _).
        rewrite length_insert. unfold rectangular in Hrect.
        rewrite Forall_forall in Hrect. by apply Hrect.
      * rewrite <- (Forall2_length _ _ _ HF). apply length_filter.
    + rewrite (proj1 (sanitize_margin_outcome d)) in Hs; [done|].
      rewrite Hpos. simpl. lia.
  - rewrite sanitize_margin_absent in Hs by done. by injection Hs as <-.
Qed.

End Assignment.

(** ** The structure of the unioned table *)

Section Loading.

Lemma load_data_unfold a b c :
  load_data a b c
  = d ← sanitize_margin c;
    concat [prepared 2014 a; prepared 2019 b; prepared 2024 d].
Proof. reflexivity. Qed.

Lemma mapped_rectangular df :
  rectangular df → rectangular (map_semantic (normalize df)).
Proof.
  unfold rectangular. rewrite map_semantic_columns. simpl.
  by rewrite !length_fmap.
Qed.

Lemma prepared_spec y df :
  rectangular df →
  let p := prepared y df in
  let m := map_semantic (normalize df) in
  rectangular p
  ∧ (∀ l, l ∈ columns p ↔ l ∈ columns m ∨ l = "year")
  ∧ positions "year" (columns p) ≠ []
  ∧ Forall2 (fun r r' =>
               (∀ l, l ≠ "year" →
                     cells_at (columns p) l r' = cells_at (columns m) l r)
               ∧ Forall (fun x => x = Num (of_int y))
                        (cells_at (columns p) "year" r'))
            (rows df) (rows p).
Proof.
  intros Hrect.
  apply (setitem_scalar_spec (map_semantic (normalize df)) "year"
           (Num (of_int y))).
  by apply mapped_rectangular.
Qed.

Lemma prepared_length y df : length (rows (prepared y df)) = length (rows df).
Proof.
  unfold prepared. rewrite setitem_scalar_unfold.
  destruct (has _ _); simpl; by rewrite length_fmap.
Qed.

Lemma prepared_has_year y df : "year" ∈ columns (prepared y df).
Proof.
  unfold prepared. rewrite setitem_scalar_unfold. unfold has.
  case_bool_decide; simpl; [done|].
  apply elem_of_app. right. apply list_elem_of_here.
Qed.

Lemma prepared_tagged y df :
  rectangular df →
  Forall (tagged (columns (prepared y df)) y) (rows (prepared y df)).
Proof.
  intros Hrect. destruct (prepared_spec y df Hrect) as (_ & _ & Hpos & HF).
  eapply Forall2_Forall_r; [exact HF|]. apply Forall_forall.
  intros r _ r' [_ Hy]. split; [|done]. intros Hnil. apply Hpos.
  apply (f_equal length) in Hnil. rewrite cells_at_length in Hnil.
  by destruct (positions "year" (columns (prepared y df))).
Qed.

(** A conversion of year tags leaves them as they are: the three years are
    small integers. *)
Lemma tags_converted y s s' :
  Numeric.small y →
  s ≠ [] → Forall (fun v => v = Num (of_int y)) s →
  Forall2 same_cell s s' →
  s' ≠ [] ∧ Forall (fun v => v = Num (of_int y)) s'.
Proof.
  intros Hy Hne Hs HF.
  rewrite (same_cells_settled s s'); [done| |done].
  eapply Forall_impl; [exact Hs|]. intros v ->. by apply settled_of_int.
Qed.

Lemma carries_tagged p_cols u_cols y rows_p R :
  Numeric.small y →
  "year" ∈ p_cols →
  Forall (tagged p_cols y) rows_p →
  Forall2 (carries p_cols u_cols) rows_p R →
  Forall (tagged u_cols y) R.
Proof.
  intros Hy Hin HF H2. eapply Forall2_Forall_r; [exact H2|].
  eapply Forall_impl; [exact HF|]. intros r [Hne Htag] r' [_ Hc].
  specialize (Hc "year"). rewrite decide_True in Hc by done.
  by eapply tags_converted.
Qed.

Lemma small_years :
  Numeric.small 2014 ∧ Numeric.small 2019 ∧ Numeric.small 2024.
Proof. unfold Numeric.small. simpl. lia. Qed.

(** The unioned table, whenever [load_data] returns it: three consecutive
    blocks of rows, one per year, each carrying the rows of its prepared
    frame in their order, on the union of the three column lists. *)
Lemma load_data_structure a b c u :
  rectangular a → rectangular b → rectangular c →
  load_data a b c = Ok u →
  ∃ d, sanitize_margin c = Ok d ∧ rectangular d ∧
    (∀ l, l ∈ columns u ↔
          l ∈ columns (prepared 2014 a) ∨ l ∈ columns (prepared 2019 b)
          ∨ l ∈ columns (prepared 2024 d)) ∧
    ∃ R14 R19 R24,
      rows u = (R14 ++ R19 ++ R24)%list
      ∧ Forall2 (carries (columns (prepared 2014 a)) (columns u))
                (rows (prepared 2014 a)) R14
      ∧ Forall2 (carries (columns (prepared 2019 b)) (columns u))
                (rows (prepared 2019 b)) R19
      ∧ Forall2 (carries (columns (prepared 2024 d)) (columns u))
                (rows (prepared 2024 d)) R24
      ∧ Forall (tagged (columns u) 2014) R14
      ∧ Forall (tagged (columns u) 2019) R19
      ∧ Forall (tagged (columns u) 2024) R24.
Proof.
  intros Ha Hb Hc Hload. rewrite load_data_unfold in Hload.
  destruct (sanitize_margin c) as [d|] eqn:Hs; [|done]. simpl in Hload.
  destruct (sanitize_margin_shape c d Hc Hs) as (_ & Hd & _).
  exists d. split; [done|]. split; [done|].
  destruct (concat_carries _ _ _ _
              (proj1 (prepared_spec 2014 a Ha))
              (proj1 (prepared_spec 2019 b Hb))
              (proj1 (prepared_spec 2024 d Hd)) Hload)
    as (Hmem & R14 & R19 & R24 & Hrows & H14 & H19 & H24).
  destruct small_years as (S14 & S19 & S24).
  split; [exact Hmem|]. exists R14, R19, R24.
  repeat split; try done.
  - eapply carries_tagged; [exact S14|apply prepared_has_year| |exact H14].
    by apply prepared_tagged.
  - eapply carries_tagged; [exact S19|apply prepared_has_year| |exact H19].
    by apply prepared_tagged.
  - eapply carries_tagged; [exact S24|apply prepared_has_year| |exact H24].
    by apply prepared_tagged.
Qed.

(** [load_data] returns whenever the raw 2024 frame is well formed and no
    prepared frame repeats a label. *)
Lemma load_data_total a b c :
  well_formed c →
  NoDup (columns (map_semantic (normalize a))) →
  NoDup (columns (map_semantic (normalize b))) →
  NoDup (columns (map_semantic (normalize c))) →
  ∃ u, load_data a b c = Ok u.
Proof.
  intros [Hnd Hrect] Ha Hb Hc. rewrite load_data_unfold.
  assert (∃ d, sanitize_margin c = Ok d ∧ columns d = columns c)
    as (d & -> & Hd).
  { apply sanitize_margin_outcome.
    destruct (decide ("Margin" ∈ columns c)) as [Hin|Hn].
    - destruct (positions_NoDup _ _ Hnd Hin) as [i ->]. simpl. lia.
    - rewrite positions_absent by done. simpl. lia. }
  simpl. apply concat_total; apply setitem_scalar_NoDup; try done.
  revert Hc. rewrite !map_semantic_columns. simpl. by rewrite Hd.
Qed.

End Loading.

(** ** The script body *)

Section Script.

Lemma mask_filter {A} (h : A → bool) (l : list A) :
  fst <$> filter (fun p => p.2 = true) (zip l (h <$> l))
  = filter (fun x => h x = true) l.
Proof.
  induction l as [|x l IH]; [done|].
  rewrite fmap_cons. simpl. rewrite !filter_cons. simpl.
  destruct (h x) eqn:Hx; repeat case_decide; simplify_eq/=;
    by rewrite ?IH.
Qed.

Lemma getitem_mask_select df i v :
  getitem_mask df ((fun x => py_eqb x v) <$> column i (rows df))
  = select i v df.
Proof.
  unfold getitem_mask, select, column. f_equal.
  rewrite <- list_fmap_compose. apply (mask_filter (fun r => py_eqb (cell r i) v)).
Qed.

Lemma sorted_check_comparable s : comparable s → sorted_check s = Ok ().
Proof.
  intros Hc. unfold sorted_check.
  destruct (existsb is_str s) eqn:H1; [|done].
  destruct (existsb (fun v => negb (is_str v)) s) eqn:H2; [|done].
  apply existsb_exists in H1 as (a & Ha%list_elem_of_In & Hsa).
  apply existsb_exists in H2 as (b & Hb%list_elem_of_In & Hsb).
  rewrite (Hc a b Ha Hb) in Hsa. by rewrite Hsa in Hsb.
Qed.

Lemma comparable_sub s s' : (∀ x, x ∈ s' → x ∈ s) → comparable s → comparable s'.
Proof. intros Hsub Hc a b Ha Hb. apply Hc; by apply Hsub. Qed.

Lemma comparable_unique s : comparable s → comparable (unique s).
Proof. apply comparable_sub. intros x. by rewrite elem_of_unique. Qed.

Lemma year_filter_ok df i y :
  positions "year" (columns df) = [i] →
  comparable (column i (rows df)) →
  year_filter y df = Ok (select i y df).
Proof.
  intros Hpos Hc. unfold year_filter, series_of. rewrite Hpos. simpl.
  fold (column i (rows df)).
  rewrite sorted_check_comparable by by apply comparable_unique.
  simpl. by rewrite getitem_mask_select.
Qed.

Lemma year_filter_inv df y f :
  year_filter y df = Ok f →
  ∃ i, positions "year" (columns df) = [i] ∧ f = select i y df.
Proof.
  unfold year_filter, series_of.
  destruct (positions "year" (columns df)) as [|i [|j ps]]; [done| |done].
  simpl. fold (column i (rows df)).
  destruct (sorted_check _); simpl; [|done].
  rewrite getitem_mask_select. intros [= <-]. eauto.
Qed.

Lemma cascade_ok c choice f i :
  positions c (columns f) = [i] →
  comparable (dropna (column i (rows f))) →
  cascade c choice f
  = Ok (if decide (choice ≠ All) then select i choice f else f).
Proof.
  intros Hpos Hc. unfold cascade, has, series_of.
  rewrite bool_decide_eq_true_2.
  - rewrite Hpos. simpl. fold (column i (rows f)).
    rewrite sorted_check_comparable by by apply comparable_unique.
    simpl. case_decide; [|done]. by rewrite getitem_mask_select.
  - destruct (decide (c ∈ columns f)) as [|Hn]; [done|].
    apply positions_absent in Hn. congruence.
Qed.

Lemma cascade_absent c choice f : c ∉ columns f → cascade c choice f = Ok f.
Proof.
  intros Hn. unfold cascade, has. by rewrite bool_decide_eq_false_2.
Qed.

Lemma select_select i v j w df :
  select i v (select j w df)
  = {| columns := columns df;
       rows := filter (fun r => py_eqb (cell r j) w = true
                                ∧ py_eqb (cell r i) v = true) (rows df) |}.
Proof.
  unfold select. simpl. f_equal. rewrite list_filter_filter.
  apply list_filter_iff. tauto.
Qed.

Lemma select_comm i v j w df :
  select i v (select j w df) = select j w (select i v df).
Proof.
  rewrite !select_select. f_equal. apply list_filter_iff. tauto.
Qed.

Lemma py_eqb_true x v : v ≠ NaN → py_eqb x v = true ↔ x = v.
Proof.
  intros Hv. unfold py_eqb. rewrite andb_true_iff, bool_decide_eq_true.
  split; [tauto|]. intros ->. split; [done|]. by destruct v.
Qed.

(** The entries of an average are the numbers [pd.to_numeric] makes of the
    cells it reads as numbers, in their order: every other cell is left
    out. *)
Lemma usable_entries s :
  Forall2 (fun v x => coerced v (Num x))
          (filter (fun v => numeric_cell v = true) s) (usable s).
Proof.
  unfold usable, dropna. pose proof (to_numeric_coerced s) as HF.
  induction HF as [|v w s t Hvw _ IH]; [constructor|].
  rewrite !filter_cons. pose proof (coerced_kind _ _ Hvw) as Hk.
  destruct (numeric_cell v) eqn:Hn.
  - destruct Hk as [y ->]. rewrite !decide_True by done. simpl.
    by constructor.
  - subst w. rewrite !decide_False by (try done; by intros ?). exact IH.
Qed.

Lemma filter_none {A} (P : A → Prop) `{∀ x, Decision (P x)} (l : list A) :
  Forall (fun x => ¬ P x) l → filter P l = [].
Proof.
  induction 1 as [|x l Hx Hl IH]; [done|].
  by rewrite filter_cons, decide_False, IH.
Qed.

Lemma usable_nulls s : Forall (fun v => v = NaN) s → usable s = [].
Proof.
  intros Hs. pose proof (usable_entries s) as HF.
  rewrite filter_none in HF.
  - by inv HF.
  - eapply Forall_impl; [exact Hs|]. by intros v ->.
Qed.

Lemma show_mean_nil : show_mean [] = Ok NotAvailable.
Proof. unfold show_mean. by rewrite mean_nil. Qed.

Lemma avg_metric_present f c i :
  positions c (columns f) = [i] →
  avg_metric f c = show_mean (usable (column i (rows f))).
Proof.
  intros Hpos. unfold avg_metric, has, series_of.
  rewrite bool_decide_eq_true_2.
  - by rewrite Hpos.
  - destruct (decide (c ∈ columns f)) as [|Hn]; [done|].
    apply positions_absent in Hn. congruence.
Qed.

Lemma join_singletons {A B} (g : A → B) (l : list A) :
  mjoin ((fun x => [g x]) <$> l) = g <$> l.
Proof. induction l as [|x l IH]; simpl; [done|]. by f_equal. Qed.

Lemma join_nils {A B} (l : list A) :
  mjoin ((fun _ => @nil B) <$> l) = [].
Proof. induction l as [|x l IH]; simpl; done. Qed.

Lemma avg_metric_absent f c : c ∉ columns f → avg_metric f c = Ok NotAvailable.
Proof.
  intros Hn. unfold avg_metric, has. by rewrite bool_decide_eq_false_2.
Qed.

End Script.

(** ** From the rows of the datasets to the rows of the unioned table *)

Section Rows.

Lemma prepared_laid_out y df u_cols R :
  Numeric.small y →
  rectangular df →
  Forall2 (carries (columns (prepared y df)) u_cols)
          (rows (prepared y df)) R →
  Forall2 (laid_out (columns (mapped df)) u_cols y) (rows df) R.
Proof.
  intros Hsmall Hrect Hc.
  destruct (prepared_spec y df Hrect) as (_ & Hmem & Hpos & HF).
  eapply Forall2_compose; [|exact HF|exact Hc].
  intros r rp r' [Hother Hyear] [Hlen Hcar]. split; [done|]. split.
  - pose proof (Hcar "year") as Hy.
    rewrite decide_True in Hy by apply prepared_has_year.
    eapply tags_converted; [exact Hsmall| |exact Hyear|exact Hy].
    intros Hnil. apply Hpos. apply (f_equal length) in Hnil.
    rewrite cells_at_length in Hnil.
    by destruct (positions "year" (columns (prepared y df))).
  - intros l Hl. specialize (Hcar l).
    destruct (decide (l ∈ columns (mapped df))) as [Hin|Hin].
    + rewrite decide_True in Hcar by (apply Hmem; by left).
      by rewrite <- (Hother l Hl).
    + rewrite decide_False in Hcar; [done|]. rewrite Hmem. tauto.
Qed.

Lemma load_data_rows a b c u :
  rectangular a → rectangular b → rectangular c →
  load_data a b c = Ok u →
  ∃ d, sanitize_margin c = Ok d ∧ columns d = columns c ∧
    (∀ l, l ∈ columns u ↔
          l = "year" ∨ l ∈ columns (mapped a) ∨ l ∈ columns (mapped b)
          ∨ l ∈ columns (mapped c)) ∧
    ∃ R14 R19 R24,
      rows u = (R14 ++ R19 ++ R24)%list
      ∧ Forall2 (laid_out (columns (mapped a)) (columns u) 2014) (rows a) R14
      ∧ Forall2 (laid_out (columns (mapped b)) (columns u) 2019) (rows b) R19
      ∧ Forall2 (laid_out (columns (mapped c)) (columns u) 2024) (rows d) R24.
Proof.
  intros Ha Hb Hc Hload.
  destruct (load_data_structure a b c u Ha Hb Hc Hload)
    as (d & Hs & Hd & Hmem & R14 & R19 & R24 & Hrows & H14 & H19 & H24 & _).
  destruct (sanitize_margin_shape c d Hc Hs) as (Hcols & _ & _).
  destruct small_years as (S14 & S19 & S24).
  assert (Hmc : columns (mapped d) = columns (mapped c)).
  { rewrite !map_semantic_columns. simpl. by rewrite Hcols. }
  exists d. split; [done|]. split; [done|]. split.
  - intros l. rewrite Hmem.
    rewrite (proj1 (proj2 (prepared_spec 2014 a Ha)) l).
    rewrite (proj1 (proj2 (prepared_spec 2019 b Hb)) l).
    rewrite (proj1 (proj2 (prepared_spec 2024 d Hd)) l).
    rewrite Hmc. tauto.
  - exists R14, R19, R24. split; [done|].
    split; [by apply prepared_laid_out|].
    split; [by apply prepared_laid_out|].
    rewrite <- Hmc. by apply prepared_laid_out.
Qed.

Lemma tagged_cell cols i y r :
  positions "year" cols = [i] → tagged cols y r → cell r i = Num (of_int y).
Proof.
  intros Hpos [_ Hall]. unfold cells_at in Hall. rewrite Hpos in Hall.
  simpl in Hall. rewrite Forall_singleton in Hall. exact Hall.
Qed.

Lemma tagged_functional cols y y' r : tagged cols y r → tagged cols y' r → y = y'.
Proof.
  intros [Hne Hy] [_ Hy']. destruct (cells_at cols "year" r) as [|v vs]; [done|].
  apply Forall_cons in Hy as [-> _]. apply Forall_cons in Hy' as [Heq _].
  injection Heq as Heq. by apply (inj of_int) in Heq.
Qed.

Lemma filter_tagged_same cols y R :
  Forall (tagged cols y) R → filter (tagged cols y) R = R.
Proof.
  induction 1 as [|r R Hr HR IH]; [done|].
  rewrite filter_cons, decide_True by done. by rewrite IH.
Qed.

Lemma filter_tagged_other cols y y' R :
  y ≠ y' → Forall (tagged cols y') R → filter (tagged cols y) R = [].
Proof.
  intros Hne. induction 1 as [|r R Hr HR IH]; [done|].
  rewrite filter_cons, decide_False; [done|].
  intros Hy. apply Hne. by eapply tagged_functional.
Qed.

(** X7.  Year tagging on every unioned table [load_data] returns: the
    table has a [year] column, each row is tagged with one of the three
    years, the three counts add up to the number of rows, and with pairwise
    distinct labels there is exactly one [year] column. *)
Lemma year_tagging a b c u :
  rectangular a → rectangular b → rectangular c →
  load_data a b c = Ok u →
  "year" ∈ columns u
  ∧ Forall (fun r => tagged (columns u) 2014 r ∨ tagged (columns u) 2019 r
                     ∨ tagged (columns u) 2024 r) (rows u)
  ∧ (length (filter (tagged (columns u) 2014) (rows u))
     + length (filter (tagged (columns u) 2019) (rows u))
     + length (filter (tagged (columns u) 2024) (rows u))
     = length (rows u))%nat
  ∧ (NoDup (columns u) → ∃ i, positions "year" (columns u) = [i]).
Proof.
  intros Ha Hb Hc Hload.
  destruct (load_data_structure a b c u Ha Hb Hc Hload)
    as (d & _ & _ & Hmem & R14 & R19 & R24 & Hrows & _ & _ & _
        & T14 & T19 & T24).
  assert (Hy : "year" ∈ columns u).
  { apply Hmem. left. apply prepared_has_year. }
  split; [done|]. split; [|split].
  - rewrite Hrows, !Forall_app. repeat split.
    + eapply Forall_impl; [exact T14|]. tauto.
    + eapply Forall_impl; [exact T19|]. tauto.
    + eapply Forall_impl; [exact T24|]. tauto.
  - rewrite Hrows, !filter_app, !length_app.
    rewrite (filter_tagged_same _ 2014 R14 T14).
    rewrite (filter_tagged_same _ 2019 R19 T19).
    rewrite (filter_tagged_same _ 2024 R24 T24).
    rewrite (filter_tagged_other _ 2014 2019 R19) by done.
    rewrite (filter_tagged_other _ 2014 2024 R24) by done.
    rewrite (filter_tagged_other _ 2019 2014 R14) by done.
    rewrite (filter_tagged_other _ 2019 2024 R24) by done.
    rewrite (filter_tagged_other _ 2024 2014 R14) by done.
    rewrite (filter_tagged_other _ 2024 2019 R19) by done.
    simpl. lia.
  - intros Hnd. by apply positions_NoDup.
Qed.

End Rows.

(** * The claims *)

Local Ltac frame_wf :=
  split; [apply (bool_decide_unpack _); vm_compute; exact I
         | unfold rectangular; simpl; repeat constructor].

Local Ltac decided := apply (bool_decide_unpack _); vm_compute; exact I.

Local Ltac small_int := unfold Numeric.small; simpl; lia.

Local Ltac settle :=
  repeat first
    [ apply Forall_nil_2
    | apply Forall_cons_2
    | exact I
    | apply settled_of_int; small_int ].

(** [pd.to_numeric] on a series of pinned cells. *)
Lemma to_numeric_reads s t : Forall2 reads s t → to_numeric s = t.
Proof.
  intros HR. pose proof (to_numeric_coerced s) as HC.
  revert HC. generalize (to_numeric s). intros t' HC. revert t' HC.
  induction HR as [|v w s t Hvw _ IH]; intros t' HC; inv HC; [done|].
  f_equal; [|by apply IH].
  match goal with H : coerced v _ |- _ => rename H into Hc end.
  destruct v as [|x|str]; simpl in Hvw, Hc.
  - congruence.
  - destruct Hvw as [Hx ->]. destruct Hc as (y' & -> & Hy). by rewrite Hy.
  - destruct Hvw as [[Hp ->]|(z & Hz & Hs & ->)].
    + by rewrite (numeric_str_plain str Hp) in Hc.
    + rewrite (numeric_str_literal str z Hz) in Hc.
      destruct Hc as (y' & -> & Hy). by rewrite (Hy z Hz Hs).
Qed.

Lemma Forall_join_inv {A} (P : A → Prop) (ls : list (list A)) :
  Forall P (mjoin ls) → Forall (Forall P) ls.
Proof.
  induction ls as [|l ls IH]; simpl; [constructor|].
  rewrite Forall_app. intros [Hl Hls]. constructor; [done | by apply IH].
Qed.

(** [pd.concat] of frames whose cells no conversion changes: the rows of
    the frames, laid out on the new columns, one block after the other. *)
Lemma concat_settled objs u :
  match objs with
  | [] => Raise ValueError
  | _ => blocks ← mapM (align (union_indexes (columns <$> objs))) objs;
         Ok {| columns := union_indexes (columns <$> objs);
               rows := mjoin blocks |}
  end = Ok u →
  Forall (Forall settled) (rows u) →
  concat objs = Ok u.
Proof.
  unfold concat. destruct objs as [|o objs]; [done|].
  destruct (mapM _ _) as [blocks|]; [|done].
  change (Ok blocks ≫= ?f) with (f blocks). cbv beta.
  intros [= <-]. simpl. intros Hs.
  by rewrite concat_values_settled by by apply Forall_join_inv.
Qed.

Local Ltac concat_eval :=
  apply concat_settled; [vm_compute; reflexivity | simpl; settle].

Local Ltac reads_cells :=
  repeat first
    [ apply Forall2_nil_2
    | apply Forall2_cons_2
    | reflexivity
    | split; [apply exact_of_int; small_int | reflexivity]
    | left; split; [decided | reflexivity]
    | right; eexists; split; [vm_compute; reflexivity|];
      split; [small_int | reflexivity] ].

(** C3.  For every column label, cleaning trims the surrounding whitespace
    and maps every remaining character through [clean_char]: a blank or a
    period becomes an underscore, any other character is lower-cased.  In
    particular [" State Name "] is cleaned to ["state_name"], and cleaning a
    cleaned label changes nothing. *)
Theorem clean_trims_lowers_replaces :
  (∀ x : label, ∃ pre core post,
      list_ascii_of_string x = (pre ++ core ++ post)%list
      ∧ Forall (fun c => PyStr.isspace c = true) pre
      ∧ Forall (fun c => PyStr.isspace c = true) post
      ∧ (∀ c, head core = Some c → PyStr.isspace c = false)
      ∧ (∀ c, last core = Some c → PyStr.isspace c = false)
      ∧ list_ascii_of_string (clean x) = map clean_char core)
  ∧ (∀ c, clean_char c = if Ascii.eqb c " " then "_"%char
                         else if Ascii.eqb c "." then "_"%char
                         else PyStr.lower_char c)
  ∧ clean " State Name " = "state_name"
  ∧ ∀ x : label, clean (clean x) = clean x.
Proof.
  split; [|split; [done|split; [done|apply clean_idemp]]].
  intros x. destruct (strip_split (list_ascii_of_string x))
    as (pre & post & Heq & Hpre & Hpost).
  exists pre, (PyStr.strip (list_ascii_of_string x)), post.
  repeat split; try done.
  - apply strip_head.
  - apply strip_last.
  - unfold clean. rewrite list_ascii_of_string_of_list_ascii.
    apply clean_chars_map.
Qed.

(** C10.  When the cleaned labels of a dataset hold two different members
    [a] and [b] of one synonym group, [map_semantic] renames both to the
    group's canonical name [k]: the two columns stay where they are, the
    schema keeps its length and now carries [k] twice, and the data is
    untouched. *)
Theorem map_semantic_duplicates df a b k :
  a ≠ b → a ∈ columns df → b ∈ columns df →
  synonym a = Some k → synonym b = Some k →
  (∃ i j, i ≠ j
          ∧ columns df !! i = Some a ∧ columns df !! j = Some b
          ∧ columns (map_semantic df) !! i = Some k
          ∧ columns (map_semantic df) !! j = Some k)
  ∧ length (columns (map_semantic df)) = length (columns df)
  ∧ ¬ NoDup (columns (map_semantic df))
  ∧ rows (map_semantic df) = rows df.
Proof.
  intros Hab [i Hi]%list_elem_of_lookup_1 [j Hj]%list_elem_of_lookup_1 Ha Hb.
  assert (Hij : i ≠ j) by (intros ->; congruence).
  assert (Hki : columns (map_semantic df) !! i = Some k).
  { rewrite map_semantic_columns, list_lookup_fmap, Hi. simpl.
    unfold canonical. by rewrite Ha. }
  assert (Hkj : columns (map_semantic df) !! j = Some k).
  { rewrite map_semantic_columns, list_lookup_fmap, Hj. simpl.
    unfold canonical. by rewrite Hb. }
  split; [by exists i, j|]. split.
  - by rewrite map_semantic_columns, length_fmap.
  - split; [|done]. intros Hnd. apply Hij.
    by eapply NoDup_lookup.
Qed.

(** C9.  [load_data] on three well-formed frames of which the first has the
    two raw labels [State] and [State Name]: both are cleaned and mapped to
    [state], and [pd.concat] raises [InvalidIndexError]. *)
Theorem load_data_raises_on_synonym_collision :
  let csv14 := mkDF ["State"; "State Name"] [[Str "UP"; Str "Uttar Pradesh"]] in
  let csv19 := mkDF ["State"] [[Str "UP"]] in
  let csv24 := mkDF ["State"] [[Str "UP"]] in
  well_formed csv14 ∧ well_formed csv19 ∧ well_formed csv24
  ∧ columns (mapped csv14) = ["state"; "state"]
  ∧ load_data csv14 csv19 csv24 = Raise InvalidIndexError.
Proof.
  simpl. split; [frame_wf|]. split; [frame_wf|]. split; [frame_wf|].
  split; vm_compute; reflexivity.
Qed.

(** C5.  [load_data] on three well-formed frames that each have the two raw
    labels [Year] and [year]: cleaning makes both [year], the year tag is
    written into both columns, the three column lists are equal so that
    [pd.concat] returns, and every row of the unioned table has two [year]
    fields; the year selection of the script then fails on it. *)
Theorem two_year_fields_on_label_collision :
  let csv := mkDF ["Year"; "year"] [[Num (of_int 2009); Num (of_int 1)]] in
  let u := mkDF ["year"; "year"]
                [[Num (of_int 2014); Num (of_int 2014)];
                 [Num (of_int 2019); Num (of_int 2019)];
                 [Num (of_int 2024); Num (of_int 2024)]] in
  well_formed csv
  ∧ load_data csv csv csv = Ok u
  ∧ positions "year" (columns u) = [0%nat; 1%nat]
  ∧ year_filter (Num (of_int 2014)) u = Raise AttributeError.
Proof.
  simpl. split; [frame_wf|]. split; [|split; vm_compute; reflexivity].
  rewrite load_data_unfold, sanitize_margin_absent by decided.
  change (Ok ?x ≫= ?f) with (f x). cbv beta. concat_eval.
Qed.

(** C6.  Whenever [load_data] returns the unioned table, its rows are the
    rows of the 2014 dataset, then those of the 2019 dataset, then those of
    the (sanitised) 2024 dataset, each block in the order of its dataset;
    its columns are [year] and every mapped label of any dataset; and each
    row holds the year of its dataset under [year], the cells of its
    dataset's row under the other labels of that dataset (each up to the
    dtype conversion of its column: nulls and strings as they are, numbers
    as they are unless they are integers above 2^53) and null under the
    labels only other datasets have. *)
Theorem unioned_table_is_concatenation a b c u :
  rectangular a → rectangular b → rectangular c →
  load_data a b c = Ok u →
  ∃ d R14 R19 R24,
    sanitize_margin c = Ok d
    ∧ rows u = (R14 ++ R19 ++ R24)%list
    ∧ Forall2 (laid_out (columns (mapped a)) (columns u) 2014) (rows a) R14
    ∧ Forall2 (laid_out (columns (mapped b)) (columns u) 2019) (rows b) R19
    ∧ Forall2 (laid_out (columns (mapped c)) (columns u) 2024) (rows d) R24
    ∧ (∀ l, l ∈ columns u ↔
            l = "year" ∨ l ∈ columns (mapped a) ∨ l ∈ columns (mapped b)
            ∨ l ∈ columns (mapped c)).
Proof.
  intros Ha Hb Hc Hload.
  destruct (load_data_rows a b c u Ha Hb Hc Hload)
    as (d & Hs & _ & Hmem & R14 & R19 & R24 & Hrows & H14 & H19 & H24).
  exists d, R14, R19, R24. repeat split; try done; by apply Hmem.
Qed.

(** C2.  The 2024 sanitation runs on the raw frame: with one column
    literally labelled [Margin], its cells are coerced to numbers, the rows
    whose cell is read as a number are kept in their order, that number
    written in the cell, and every other row is dropped; without such a
    column the frame is left as it is.  In the unioned table the 2014 and
    2019 blocks have as many rows as their datasets, whatever their cells
    hold, and the 2024 block as many as the sanitised frame.  On the 2024
    rows [Margin = "10000"], ["N/A"], ["-500"] the table has two 2024 rows,
    with margins 10000 and -500, while a 2014 row with margin ["N/A"] stays;
    blanks around a literal and a leading plus sign are read over. *)
Theorem margin_sanitation_2024_only :
  (∀ d i, rectangular d → positions "Margin" (columns d) = [i] →
     ∃ d', sanitize_margin d = Ok d'
           ∧ columns d' = columns d
           ∧ Forall2 (sanitized i)
                     (filter (fun r => numeric_cell (cell r i) = true) (rows d))
                     (rows d'))
  ∧ (∀ d, "Margin" ∉ columns d → sanitize_margin d = Ok d)
  ∧ (∀ a b c u,
        rectangular a → rectangular b → rectangular c →
        load_data a b c = Ok u →
        ∃ d R14 R19 R24,
          sanitize_margin c = Ok d
          ∧ rows u = (R14 ++ R19 ++ R24)%list
          ∧ length R14 = length (rows a)
          ∧ length R19 = length (rows b)
          ∧ length R24 = length (rows d)
          ∧ Forall (tagged (columns u) 2014) R14
          ∧ Forall (tagged (columns u) 2019) R19
          ∧ Forall (tagged (columns u) 2024) R24)
  ∧ load_data (mkDF ["Margin"] [[Str "N/A"]])
              (mkDF ["Margin"] [[Str "unknown"]])
              (mkDF ["Margin"] [[Str "10000"]; [Str "N/A"]; [Str "-500"]])
    = Ok (mkDF ["margin"; "year"]
               [[Str "N/A"; Num (of_int 2014)];
                [Str "unknown"; Num (of_int 2019)];
                [Num (of_int 10000); Num (of_int 2024)];
                [Num (of_int (-500)); Num (of_int 2024)]])
  ∧ sanitize_margin (mkDF ["Seat"; "Margin"]
                          [[Str "A"; Str " 7 "]; [Str "B"; Str "n.a."];
                           [Str "C"; NaN]; [Str "D"; Str "+12"]])
    = Ok (mkDF ["Seat"; "Margin"]
               [[Str "A"; Num (of_int 7)]; [Str "D"; Num (of_int 12)]]).
Proof.
  split; [exact sanitize_margin_rows|].
  split; [exact sanitize_margin_absent|].
  split; [|split].
  - intros a b c u Ha Hb Hc Hload.
    destruct (load_data_rows a b c u Ha Hb Hc Hload)
      as (d & Hs & _ & _ & R14 & R19 & R24 & Hrows & H14 & H19 & H24).
    exists d, R14, R19, R24. split; [done|]. split; [done|].
    split; [symmetry; by eapply Forall2_length|].
    split; [symmetry; by eapply Forall2_length|].
    split; [symmetry; by eapply Forall2_length|].
    split; [|split].
    + eapply Forall2_Forall_r; [exact H14|]. apply Forall_forall.
      intros r _ r' (_ & Ht & _). exact Ht.
    + eapply Forall2_Forall_r; [exact H19|]. apply Forall_forall.
      intros r _ r' (_ & Ht & _). exact Ht.
    + eapply Forall2_Forall_r; [exact H24|]. apply Forall_forall.
      intros r _ r' (_ & Ht & _). exact Ht.
  - rewrite load_data_unfold.
    rewrite (sanitize_margin_present _ 0);
      [|unfold rectangular; simpl; repeat constructor|reflexivity].
    rewrite (to_numeric_reads _ [Num (of_int 10000); NaN; Num (of_int (-500))])
      by reads_cells.
    change (Ok ?x ≫= ?f) with (f x). cbv beta. concat_eval.
  - rewrite (sanitize_margin_present _ 1);
      [|unfold rectangular; simpl; repeat constructor|reflexivity].
    rewrite (to_numeric_reads _ [Num (of_int 7); NaN; NaN; Num (of_int 12)])
      by reads_cells.
    vm_compute. reflexivity.
Qed.

(** C8.  The average metric on a field that labels at most one column is
    computed from the entries [pd.to_numeric] reads as numbers in that
    column, in their order; every other cell (a null, a string that spells
    no number) is left out and raises nothing.  With no such entry, and in
    particular when the field is absent from the schema, the metric is "not
    available".  Whatever the metric raises is raised by [int()] on the mean
    of the numeric entries. *)
Theorem avg_metric_excludes_non_numeric f c :
  (length (positions c (columns f)) ≤ 1)%nat →
  let col := mjoin (cells_at (columns f) c <$> rows f) in
  let entries := usable col in
  avg_metric f c = show_mean entries
  ∧ Forall2 (fun v x => coerced v (Num x))
            (filter (fun v => numeric_cell v = true) col) entries
  ∧ (Forall (fun v => numeric_cell v = false) col →
     avg_metric f c = Ok NotAvailable)
  ∧ (c ∉ columns f → avg_metric f c = Ok NotAvailable)
  ∧ (∀ e, avg_metric f c = Raise e →
          ∃ avg, mean entries = Some avg ∧ to_int avg = Raise e)
  ∧ usable [Str " 100 "; Str "n/a"; Num (of_int 51); NaN; Str "-8"]
    = [of_int 100; of_int 51; of_int (-8)].
Proof.
  intros Hlen col entries.
  assert (Hmain : avg_metric f c = show_mean entries).
  { subst entries col. unfold cells_at.
    destruct (positions c (columns f)) as [|i [|j ps]] eqn:Hpos;
      [| |simpl in Hlen; lia].
    - apply positions_nil_absent in Hpos.
      rewrite avg_metric_absent by done.
      change (fun r : list value => cell r <$> [])
        with (fun _ : list value => @nil value).
      rewrite join_nils, usable_nulls by constructor.
      by rewrite show_mean_nil.
    - rewrite (avg_metric_present f c i Hpos).
      change (fun r : list value => cell r <$> [i])
        with (fun r : list value => [cell r i]).
      by rewrite join_singletons. }
  pose proof (usable_entries col) as Hent. fold entries in Hent.
  split; [exact Hmain|]. split; [exact Hent|]. split; [|split; [|split]].
  - intros Hnone. rewrite Hmain. rewrite filter_none in Hent.
    + inv Hent. apply show_mean_nil.
    + eapply Forall_impl; [exact Hnone|]. intros v ->. done.
  - intros Hn. by apply avg_metric_absent.
  - intros e. rewrite Hmain. unfold show_mean.
    destruct (mean entries) as [avg|]; [|done].
    destruct (to_int avg) as [z|e'] eqn:Hz; [done|].
    intros [= <-]. by exists avg.
  - unfold usable.
    rewrite (to_numeric_reads _ [Num (of_int 100); NaN; Num (of_int 51); NaN;
                                 Num (of_int (-8))]) by reads_cells.
    reflexivity.
Qed.

(** C7.  On a table whose [year] and [state] labels each name one column
    (and [party] at most one), and whose selection boxes can be built
    (the values each box sorts are mutually comparable): choosing year [y],
    a state [x] other than "All" and party "All" leaves [filtered] equal to
    the table restricted to the rows with [year == y] and [state == x], in
    their order and with all columns; the party choice filters nothing; and
    the two row selections give that same view in either order. *)
Theorem filter_cascade df iy ist (y : num) (x : string) :
  positions "year" (columns df) = [iy] →
  positions "state" (columns df) = [ist] →
  (length (positions "party" (columns df)) ≤ 1)%nat →
  x ≠ "All" →
  comparable (column iy (rows df)) →
  comparable (dropna (column ist (rows (select iy (Num y) df)))) →
  (∀ ip, positions "party" (columns df) = [ip] →
         comparable (dropna (column ip
            (rows (select ist (Str x) (select iy (Num y) df)))))) →
  let view :=
    {| columns := columns df;
       rows := filter (fun r => cell r iy = Num y ∧ cell r ist = Str x)
                      (rows df) |} in
  filtered_view df {| sel_year := Num y; sel_state := Str x;
                      sel_party := All |} = Ok view
  ∧ select ist (Str x) (select iy (Num y) df) = view
  ∧ select iy (Num y) (select ist (Str x) df) = view.
Proof.
  intros Hy Hs Hp Hx Hcy Hcs Hcp view.
  assert (Hview : select ist (Str x) (select iy (Num y) df) = view).
  { rewrite select_select. subst view. f_equal. apply list_filter_iff.
    intros r. by rewrite !py_eqb_true by done. }
  split; [|split; [done|by rewrite select_comm]].
  unfold filtered_view. simpl.
  rewrite (year_filter_ok df iy (Num y) Hy Hcy). simpl.
  rewrite (cascade_ok "state" (Str x) (select iy (Num y) df) ist Hs Hcs).
  rewrite decide_True by (unfold All; congruence). simpl.
  rewrite Hview in *.
  destruct (positions "party" (columns df)) as [|ip [|j ps]] eqn:Hpp;
    [| |simpl in Hp; lia].
  - apply positions_nil_absent in Hpp. by rewrite cascade_absent.
  - rewrite (cascade_ok "party" All view ip Hpp (Hcp ip eq_refl)).
    by rewrite decide_False by (intros H; by apply H).
Qed.

(** ** Field presence in a year's view *)

Section Presence.

Lemma has_field_mapped raw fld :
  fld ∈ columns (mapped raw) ↔ has_field raw fld.
Proof.
  rewrite map_semantic_columns. simpl. unfold has_field.
  rewrite list_elem_of_fmap. split.
  - intros (cl & -> & (l & -> & Hl)%list_elem_of_fmap). eauto.
  - intros (l & Hl & <-). exists (clean l). split; [done|].
    apply list_elem_of_fmap. eauto.
Qed.

Lemma select_tagged_same cols i y R :
  positions "year" cols = [i] → Forall (tagged cols y) R →
  filter (fun r => py_eqb (cell r i) (Num (of_int y)) = true) R = R.
Proof.
  intros Hpos. induction 1 as [|r R Hr HR IH]; [done|].
  rewrite filter_cons, decide_True, IH; [done|].
  apply py_eqb_true; [done|]. by eapply tagged_cell.
Qed.

Lemma select_tagged_other cols i y y' R :
  positions "year" cols = [i] → y ≠ y' → Forall (tagged cols y') R →
  filter (fun r => py_eqb (cell r i) (Num (of_int y)) = true) R = [].
Proof.
  intros Hpos Hne. induction 1 as [|r R Hr HR IH]; [done|].
  rewrite filter_cons, decide_False, IH; [done|].
  rewrite py_eqb_true by done. rewrite (tagged_cell cols i y' r) by done.
  intros [= Heq]. apply (inj of_int) in Heq. congruence.
Qed.

Lemma laid_out_tagged m_cols u_cols y rs R :
  Forall2 (laid_out m_cols u_cols y) rs R → Forall (tagged u_cols y) R.
Proof.
  intros HF. eapply Forall2_Forall_r; [exact HF|]. apply Forall_forall.
  intros r _ r' (_ & Ht & _). exact Ht.
Qed.

Lemma laid_out_nulls m_cols u_cols y rs R fld :
  fld ≠ "year" → fld ∉ m_cols →
  Forall2 (laid_out m_cols u_cols y) rs R →
  Forall (fun r' => Forall (fun v => v = NaN) (cells_at u_cols fld r')) R.
Proof.
  intros Hne Hnin HF. eapply Forall2_Forall_r; [exact HF|].
  apply Forall_forall. intros r _ r' (_ & _ & Hl).
  specialize (Hl fld Hne). by rewrite decide_False in Hl.
Qed.

End Presence.

(** C1, as the code has it.  The view of one year keeps every column of the
    unioned table, so the presence query on it answers true for [margin]
    exactly when at least one of the three datasets has a column that maps
    to [margin]; when the dataset of the selected year has none, every row
    of the view holds null under [margin]. *)
Theorem presence_follows_union_schema a b c u y f :
  rectangular a → rectangular b → rectangular c →
  load_data a b c = Ok u →
  year_filter (Num (of_int y)) u = Ok f →
  (has f "margin" = true ↔
     has_field a "margin" ∨ has_field b "margin" ∨ has_field c "margin")
  ∧ (y = 2014 → ¬ has_field a "margin" →
     Forall (fun r => Forall (fun v => v = NaN)
                        (cells_at (columns f) "margin" r)) (rows f))
  ∧ (y = 2019 → ¬ has_field b "margin" →
     Forall (fun r => Forall (fun v => v = NaN)
                        (cells_at (columns f) "margin" r)) (rows f))
  ∧ (y = 2024 → ¬ has_field c "margin" →
     Forall (fun r => Forall (fun v => v = NaN)
                        (cells_at (columns f) "margin" r)) (rows f)).
Proof.
  intros Ha Hb Hc Hload Hview.
  destruct (load_data_rows a b c u Ha Hb Hc Hload)
    as (d & Hs & _ & Hmem & R14 & R19 & R24 & Hrows & H14 & H19 & H24).
  destruct (year_filter_inv u (Num (of_int y)) f Hview) as (i & Hpos & ->).
  pose proof (laid_out_tagged _ _ _ _ _ H14) as T14.
  pose proof (laid_out_tagged _ _ _ _ _ H19) as T19.
  pose proof (laid_out_tagged _ _ _ _ _ H24) as T24.
  unfold select. simpl. rewrite Hrows, !filter_app.
  split; [|split; [|split]].
  - unfold has. simpl. rewrite bool_decide_eq_true, Hmem.
    rewrite !has_field_mapped. split; [|tauto].
    intros [?|?]; [done|tauto].
  - intros -> Hn.
    rewrite (select_tagged_same _ i 2014 R14 Hpos T14).
    rewrite (select_tagged_other _ i 2014 2019 R19 Hpos) by done.
    rewrite (select_tagged_other _ i 2014 2024 R24 Hpos) by done.
    rewrite !app_nil_r.
    eapply laid_out_nulls; [| |exact H14]; [done|].
    by rewrite has_field_mapped.
  - intros -> Hn.
    rewrite (select_tagged_same _ i 2019 R19 Hpos T19).
    rewrite (select_tagged_other _ i 2019 2014 R14 Hpos) by done.
    rewrite (select_tagged_other _ i 2019 2024 R24 Hpos) by done.
    rewrite app_nil_r. simpl.
    eapply laid_out_nulls; [| |exact H19]; [done|].
    by rewrite has_field_mapped.
  - intros -> Hn.
    rewrite (select_tagged_same _ i 2024 R24 Hpos T24).
    rewrite (select_tagged_other _ i 2024 2014 R14 Hpos) by done.
    rewrite (select_tagged_other _ i 2024 2019 R19 Hpos) by done.
    simpl.
    eapply laid_out_nulls; [| |exact H24]; [done|].
    by rewrite has_field_mapped.
Qed.

(** ** Labels outside the synonym groups *)

Section Unmapped.

Lemma synonym_fixed c k : synonym c = Some k → synonym k = Some k.
Proof.
  unfold synonym at 1. repeat case_bool_decide; intros [= <-]; reflexivity.
Qed.

Lemma canonical_inv c l : synonym l = None → canonical c = l → c = l.
Proof.
  intros Hl. unfold canonical. destruct (synonym c) as [k|] eqn:Hc; simpl.
  - intros ->. apply synonym_fixed in Hc. congruence.
  - done.
Qed.

Lemma positions_canonical l cols :
  synonym l = None → positions l (canonical <$> cols) = positions l cols.
Proof.
  intros Hl. induction cols as [|c cols IH]; [done|].
  rewrite fmap_cons, !positions_cons, IH.
  destruct (decide (canonical c = l)) as [Hc|Hc].
  - apply canonical_inv in Hc; [|done]. by rewrite decide_True.
  - rewrite decide_False; [done|]. intros ->.
    apply Hc. by apply canonical_outside.
Qed.

Lemma cells_at_canonical l cols r :
  synonym l = None → cells_at (canonical <$> cols) l r = cells_at cols l r.
Proof. intros Hl. unfold cells_at. by rewrite positions_canonical. Qed.

(** The data under a label that no synonym group holds, other than
    [year], reaches the unioned table, each cell up to a dtype conversion. *)
Lemma laid_out_unmapped raw u_cols y rs R l :
  synonym l = None → l ≠ "year" → l ∈ columns (normalize raw) →
  Forall2 (laid_out (columns (mapped raw)) u_cols y) rs R →
  Forall2 (fun r r' =>
             Forall2 same_cell (cells_at (columns (normalize raw)) l r)
                     (cells_at u_cols l r'))
          rs R.
Proof.
  intros Hl Hy Hin HF. eapply Forall2_impl; [exact HF|].
  intros r r' (_ & _ & Hc). specialize (Hc l Hy).
  rewrite map_semantic_columns in Hc. rewrite decide_True in Hc.
  - by rewrite cells_at_canonical in Hc.
  - apply list_elem_of_fmap. exists l. split; [|done].
    symmetry. by apply canonical_outside.
Qed.

End Unmapped.

(** C4, as the code has it.  [map_semantic] renames every label by the
    synonym table (so [valid_votes] and [total_votes] both become [votes]),
    keeps every label outside the four groups, and leaves the data alone.
    In the unioned table the column of such a label, when the label is not
    [year], is present and holds, on the rows of its dataset, the cells the
    dataset had, each up to a dtype conversion: nulls and strings as they
    were, numbers as they were unless they are integers above 2^53.  Under
    [year] every row holds the tag of its dataset, whatever the dataset had
    there: a raw [Year] column holding 1999 shows 2014 in the table. *)
Theorem semantic_mapping_by_table :
  (∀ c, (synonym c = Some "state" ↔ c ∈ ["state"; "state_name"])
        ∧ (synonym c = Some "party" ↔ c ∈ ["party"; "party_name"])
        ∧ (synonym c = Some "votes"
           ↔ c ∈ ["votes"; "total_votes"; "valid_votes"])
        ∧ (synonym c = Some "margin"
           ↔ c ∈ ["margin"; "vote_margin"; "winning_margin"])
        ∧ (∀ k, synonym c = Some k → k ∈ ["state"; "party"; "votes"; "margin"]))
  ∧ (∀ df, columns (map_semantic df) = canonical <$> columns df
           ∧ rows (map_semantic df) = rows df)
  ∧ canonical "valid_votes" = "votes" ∧ canonical "total_votes" = "votes"
  ∧ (∀ l, synonym l = None → canonical l = l)
  ∧ (∀ a b c u,
        rectangular a → rectangular b → rectangular c →
        load_data a b c = Ok u →
        ∃ d R14 R19 R24,
          sanitize_margin c = Ok d
          ∧ rows u = (R14 ++ R19 ++ R24)%list
          ∧ Forall (tagged (columns u) 2014) R14
          ∧ Forall (tagged (columns u) 2019) R19
          ∧ Forall (tagged (columns u) 2024) R24
          ∧ ∀ l, synonym l = None → l ≠ "year" →
              (l ∈ columns (normalize a) →
               l ∈ columns u
               ∧ Forall2 (fun r r' =>
                            Forall2 same_cell
                              (cells_at (columns (normalize a)) l r)
                              (cells_at (columns u) l r'))
                         (rows a) R14)
              ∧ (l ∈ columns (normalize b) →
                 l ∈ columns u
                 ∧ Forall2 (fun r r' =>
                              Forall2 same_cell
                                (cells_at (columns (normalize b)) l r)
                                (cells_at (columns u) l r'))
                           (rows b) R19)
              ∧ (l ∈ columns (normalize c) →
                 l ∈ columns u
                 ∧ Forall2 (fun r r' =>
                              Forall2 same_cell
                                (cells_at (columns (normalize c)) l r)
                                (cells_at (columns u) l r'))
                           (rows d) R24))
  ∧ load_data (mkDF ["Year"; "Seat"] [[Num (of_int 1999); Str "A"]])
              (mkDF ["Seat"] [[Str "B"]])
              (mkDF ["Seat"] [[Str "C"]])
    = Ok (mkDF ["year"; "seat"]
               [[Num (of_int 2014); Str "A"];
                [Num (of_int 2019); Str "B"];
                [Num (of_int 2024); Str "C"]]).
Proof.
  split; [|split; [|split; [|split; [|split; [|split]]]]].
  - intros c. unfold synonym. repeat split.
    + repeat case_bool_decide; by intros [=].
    + intros Hc. by rewrite bool_decide_eq_true_2.
    + repeat case_bool_decide; by intros [=].
    + intros Hc.
      repeat (apply elem_of_cons in Hc as [->|Hc]);
        [reflexivity..|by apply elem_of_nil in Hc].
    + repeat case_bool_decide; by intros [=].
    + intros Hc.
      repeat (apply elem_of_cons in Hc as [->|Hc]);
        [reflexivity..|by apply elem_of_nil in Hc].
    + repeat case_bool_decide; by intros [=].
    + intros Hc.
      repeat (apply elem_of_cons in Hc as [->|Hc]);
        [reflexivity..|by apply elem_of_nil in Hc].
    + intros k. repeat case_bool_decide; intros [= <-];
        apply (bool_decide_unpack _); reflexivity.
  - intros df. split; [apply map_semantic_columns|done].
  - reflexivity.
  - reflexivity.
  - apply canonical_outside.
  - intros a b c u Ha Hb Hc Hload.
    destruct (load_data_rows a b c u Ha Hb Hc Hload)
      as (d & Hs & _ & Hmem & R14 & R19 & R24 & Hrows & H14 & H19 & H24).
    exists d, R14, R19, R24. split; [done|]. split; [done|].
    split; [by eapply laid_out_tagged|].
    split; [by eapply laid_out_tagged|].
    split; [by eapply laid_out_tagged|].
    intros l Hl Hy.
    assert (Hmap : ∀ raw, l ∈ columns (normalize raw) →
                          l ∈ columns (mapped raw)).
    { intros raw Hin. rewrite map_semantic_columns.
      apply list_elem_of_fmap. exists l. split; [|done].
      symmetry. by apply canonical_outside. }
    split; [|split]; intros Hin.
    + split; [apply Hmem; right; left; by apply Hmap|].
      by eapply laid_out_unmapped.
    + split; [apply Hmem; right; right; left; by apply Hmap|].
      by eapply laid_out_unmapped.
    + split; [apply Hmem; right; right; right; by apply Hmap|].
      by eapply laid_out_unmapped.
  - rewrite load_data_unfold, sanitize_margin_absent by decided.
    change (Ok ?x ≫= ?f) with (f x). cbv beta. concat_eval.
Qed.

(** * Further properties of the code *)

(** ** [normalize] and [map_semantic] *)

Lemma frame_eq (x y : DataFrame) :
  columns x = columns y → rows x = rows y → x = y.
Proof. destruct x, y. simpl. by intros -> ->. Qed.

Lemma clean_char_shape c :
  clean_char c ≠ " "%char ∧ clean_char c ≠ "."%char
  ∧ PyStr.lower_char (clean_char c) = clean_char c.
Proof.
  destruct c as [[] [] [] [] [] [] [] []]; vm_compute;
    repeat split; congruence.
Qed.

(** X1.  A cleaned label holds no blank, no period and no upper-case
    letter, and neither starts nor ends with whitespace. *)
Theorem cleaned_label_characters (x : label) :
  Forall (fun c => c ≠ " "%char ∧ c ≠ "."%char ∧ PyStr.lower_char c = c)
         (list_ascii_of_string (clean x))
  ∧ (∀ c, head (list_ascii_of_string (clean x)) = Some c →
          PyStr.isspace c = false)
  ∧ (∀ c, last (list_ascii_of_string (clean x)) = Some c →
          PyStr.isspace c = false).
Proof.
  unfold clean. rewrite list_ascii_of_string_of_list_ascii, clean_chars_map.
  change (map clean_char) with (fmap (M := list) clean_char).
  split; [|split].
  - apply Forall_fmap, Forall_forall. intros c _. apply clean_char_shape.
  - intros c Hc. pose proof (strip_head (list_ascii_of_string x)) as Hs.
    destruct (PyStr.strip (list_ascii_of_string x)) as [|a l]; simplify_eq/=.
    by apply clean_char_not_space, Hs.
  - intros c. rewrite fmap_last.
    destruct (last (PyStr.strip (list_ascii_of_string x))) as [a|] eqn:Ha;
      [|done].
    intros [= <-].
    by apply clean_char_not_space, (strip_last (list_ascii_of_string x)).
Qed.

Lemma normalize_columns df : columns (normalize df) = clean <$> columns df.
Proof. reflexivity. Qed.

Lemma synonym_clean c k : synonym c = Some k → clean k = k.
Proof.
  unfold synonym. repeat case_bool_decide; intros [= <-]; reflexivity.
Qed.

Lemma canonical_idemp c : canonical (canonical c) = canonical c.
Proof.
  destruct (synonym c) as [k|] eqn:Hc.
  - assert (canonical c = k) as -> by (unfold canonical; by rewrite Hc).
    unfold canonical. by rewrite (synonym_fixed c k Hc).
  - by rewrite !(canonical_outside c Hc).
Qed.

Lemma clean_canonical_clean c : clean (canonical (clean c)) = canonical (clean c).
Proof.
  unfold canonical. destruct (synonym (clean c)) as [k|] eqn:Hc; simpl.
  - by eapply synonym_clean.
  - apply clean_idemp.
Qed.

(** X2.  Cleaning and mapping a frame that is already cleaned and mapped
    changes nothing, and so does mapping a mapped frame once more. *)
Theorem mapped_idempotent df :
  mapped (mapped df) = mapped df
  ∧ map_semantic (map_semantic df) = map_semantic df.
Proof.
  split; apply frame_eq; try done.
  - rewrite !map_semantic_columns, !normalize_columns, map_semantic_columns.
    rewrite normalize_columns, <- !list_fmap_compose.
    apply list_fmap_ext. intros i c _.
    unfold compose. rewrite clean_canonical_clean. apply canonical_idemp.
  - rewrite !map_semantic_columns, <- list_fmap_compose.
    apply list_fmap_ext. intros i c _. unfold compose. apply canonical_idemp.
Qed.

(** X3.  After [map_semantic] every label is either outside all synonym
    groups or the canonical name of its group: a synonym that is not the
    canonical name ([state_name], [total_votes], ...) never labels a column
    of the result. *)
Theorem map_semantic_labels df :
  (∀ l, l ∈ columns (map_semantic df) →
        synonym l = None ∨ synonym l = Some l)
  ∧ (∀ c k, synonym c = Some k → c ≠ k → has (map_semantic df) c = false).
Proof.
  assert (H1 : ∀ l, l ∈ columns (map_semantic df) →
                    synonym l = None ∨ synonym l = Some l).
  { intros l. rewrite map_semantic_columns.
    intros (c & -> & _)%list_elem_of_fmap. unfold canonical.
    destruct (synonym c) as [k|] eqn:Hc; simpl.
    - right. by eapply synonym_fixed.
    - by left. }
  split; [exact H1|]. intros c k Hc Hne. unfold has.
  apply bool_decide_eq_false_2. intros Hin.
  destruct (H1 c Hin) as [Hn|Hs]; congruence.
Qed.

Lemma canonical_collide a b :
  a ≠ b →
  canonical a = canonical b ↔ ∃ k, synonym a = Some k ∧ synonym b = Some k.
Proof.
  intros Hab. split.
  - intros Heq. unfold canonical in Heq.
    destruct (synonym a) as [ka|] eqn:Ha, (synonym b) as [kb|] eqn:Hb;
      simpl in Heq; subst.
    + by exists kb.
    + apply synonym_fixed in Ha. congruence.
    + apply synonym_fixed in Hb. congruence.
    + done.
  - intros (k & Ha & Hb). unfold canonical. by rewrite Ha, Hb.
Qed.

Lemma NoDup_fmap_inj_on {A B} (f : A → B) (l : list A) :
  NoDup (f <$> l) → ∀ x y, x ∈ l → y ∈ l → f x = f y → x = y.
Proof.
  induction l as [|a l IH]; intros Hnd x y Hx Hy Hf.
  - by apply elem_of_nil in Hx.
  - rewrite fmap_cons in Hnd. apply NoDup_cons in Hnd as [Ha Hnd].
    apply elem_of_cons in Hx as [->|Hx]; apply elem_of_cons in Hy as [->|Hy].
    + done.
    + exfalso. apply Ha. rewrite Hf. by apply list_elem_of_fmap_2.
    + exfalso. apply Ha. rewrite <- Hf. by apply list_elem_of_fmap_2.
    + by apply IH.
Qed.

(** X4.  [map_semantic] yields pairwise distinct labels exactly when the
    labels it is given are pairwise distinct and no two of them belong to
    the same synonym group. *)
Theorem map_semantic_distinct_iff df :
  NoDup (columns (map_semantic df)) ↔
  NoDup (columns df)
  ∧ ¬ ∃ a b k, a ≠ b ∧ a ∈ columns df ∧ b ∈ columns df
               ∧ synonym a = Some k ∧ synonym b = Some k.
Proof.
  rewrite map_semantic_columns. split.
  - intros Hnd. split; [by eapply NoDup_fmap_1|].
    intros (a & b & k & Hab & Ha & Hb & Hsa & Hsb). apply Hab.
    apply (NoDup_fmap_inj_on canonical (columns df) Hnd a b Ha Hb).
    apply canonical_collide; eauto.
  - intros [Hnd Hno]. apply NoDup_fmap_2_strong; [|done].
    intros a b Ha Hb Heq. destruct (decide (a = b)) as [|Hab]; [done|].
    exfalso. apply Hno. apply canonical_collide in Heq as (k & ? & ?); [|done].
    by exists a, b, k.
Qed.

(** ** The 2024 sanitation *)

Lemma filter_all {A} (P : A → Prop) `{∀ x, Decision (P x)} (l : list A) :
  Forall P l → filter P l = l.
Proof.
  induction 1 as [|x l Hx Hl IH]; [done|].
  by rewrite filter_cons, decide_True, IH.
Qed.

(** X5.  After the sanitation of a frame with one [Margin] column every
    cell of that column is a number; as many rows are kept as the column
    had cells that [pd.to_numeric] reads as numbers; and every other column
    of the result is, in its order, what is left of that column of the
    frame. *)
Theorem sanitize_margin_numeric d i d' :
  rectangular d →
  positions "Margin" (columns d) = [i] →
  sanitize_margin d = Ok d' →
  Forall (fun r => ∃ x, cell r i = Num x) (rows d')
  ∧ length (rows d')
    = length (filter (fun v => numeric_cell v = true) (column i (rows d)))
  ∧ (length (rows d') ≤ length (rows d))%nat
  ∧ ∀ j, j ≠ i → column j (rows d') `sublist_of` column j (rows d).
Proof.
  intros Hrect Hpos Hs.
  destruct (sanitize_margin_rows d i Hrect Hpos) as (d0 & Hs0 & _ & HF).
  rewrite Hs in Hs0. injection Hs0 as <-.
  assert (Hi : (i < length (columns d))%nat).
  { eapply lookup_lt_Some, positions_lookup. rewrite Hpos.
    apply list_elem_of_here. }
  unfold rectangular in Hrect. rewrite Forall_forall in Hrect.
  split; [|split; [|split]].
  - eapply Forall2_Forall_r; [exact HF|]. apply Forall_forall.
    intros r [_ Hr]%list_elem_of_filter r' (y & -> & _). exists y.
    unfold cell. by rewrite list_lookup_insert_eq by (rewrite Hrect; done).
  - rewrite <- (Forall2_length _ _ _ HF). unfold column.
    rewrite (filter_fmap_iff _ (fun r => numeric_cell (cell r i) = true)).
    + by rewrite length_fmap.
    + apply Forall_forall. by intros r _.
  - rewrite <- (Forall2_length _ _ _ HF). apply length_filter.
  - intros j Hj.
    assert (Heq : column j (rows d')
                  = column j (filter (fun r => numeric_cell (cell r i) = true)
                                     (rows d))).
    { unfold column. symmetry. apply list_eq_Forall2, Forall2_fmap.
      eapply Forall2_impl; [exact HF|]. intros r r' (y & -> & _).
      unfold cell. by rewrite list_lookup_insert_ne. }
    rewrite Heq. unfold column. apply fmap_sublist, sublist_filter.
Qed.

(** ** When [load_data] returns and what it raises *)

Lemma bind_Ok {A B} (x : A) (f : A → result B) : (Ok x ≫= f) = f x.
Proof. reflexivity. Qed.

Lemma prepared_columns_ext y d c :
  columns d = columns c → columns (prepared y d) = columns (prepared y c).
Proof.
  intros Heq. unfold prepared. rewrite !setitem_scalar_unfold. unfold has.
  rewrite !map_semantic_columns, !normalize_columns, Heq.
  by case_bool_decide.
Qed.

Lemma concat_3_equal a b c :
  columns b = columns a → columns c = columns a →
  concat [a; b; c]
  = Ok {| columns := columns a;
          rows := concat_values [rows a; rows b; rows c] |}.
Proof.
  intros Hb Hc. unfold concat, union_indexes, align. simpl.
  rewrite bool_decide_eq_true_2 by (rewrite Hb, Hc; repeat constructor).
  by rewrite !bool_decide_eq_true_2 by done.
Qed.

Lemma concat_3_raises a b c :
  ¬ (columns b = columns a ∧ columns c = columns a) →
  ¬ (NoDup (columns a) ∧ NoDup (columns b) ∧ NoDup (columns c)) →
  concat [a; b; c] = Raise InvalidIndexError.
Proof.
  intros Hne Hnd. unfold concat, union_indexes. simpl.
  rewrite bool_decide_eq_false_2.
  2: { intros HF. apply Hne. apply Forall_cons in HF as [-> HF].
       by apply Forall_cons in HF as [-> _]. }
  set (new := unique _).
  assert (Hnew : NoDup new) by apply NoDup_unique_from.
  assert (Hal : ∀ o, align new o
                     = if decide (NoDup (columns o))
                       then align new o else Raise InvalidIndexError).
  { intros o. case_decide as Ho; [done|]. unfold align, get_indexer.
    rewrite bool_decide_eq_false_2 by (intros Heq; by rewrite Heq in Ho).
    by rewrite bool_decide_eq_false_2. }
  assert (Hout : ∀ o, (∃ R, align new o = Ok R)
                      ∨ align new o = Raise InvalidIndexError).
  { intros o. unfold align, get_indexer.
    repeat case_bool_decide; simpl; eauto. }
  destruct (decide (NoDup (columns a))) as [Ha|Ha];
    [|by rewrite (Hal a), decide_False].
  destruct (Hout a) as [[Ra ->]| ->]; [simpl|done].
  destruct (decide (NoDup (columns b))) as [Hb|Hb];
    [|by rewrite (Hal b), decide_False].
  destruct (Hout b) as [[Rb ->]| ->]; [simpl|done].
  destruct (decide (NoDup (columns c))) as [Hc|Hc]; [tauto|].
  by rewrite (Hal c), decide_False.
Qed.

(** X6.  [load_data] raises [TypeError] when the raw 2024 frame has several
    columns labelled [Margin]; otherwise it returns exactly when the three
    prepared frames have the same column list or none of them repeats a
    label, and raises [InvalidIndexError] in every other case. *)
Theorem load_data_outcome a b c :
  let pa := columns (prepared 2014 a) in
  let pb := columns (prepared 2019 b) in
  let pc := columns (prepared 2024 c) in
  ((2 ≤ length (positions "Margin" (columns c)))%nat →
   load_data a b c = Raise TypeError)
  ∧ ((length (positions "Margin" (columns c)) ≤ 1)%nat →
     (pb = pa ∧ pc = pa) ∨ (NoDup pa ∧ NoDup pb ∧ NoDup pc) →
     ∃ u, load_data a b c = Ok u)
  ∧ ((length (positions "Margin" (columns c)) ≤ 1)%nat →
     ¬ (pb = pa ∧ pc = pa) → ¬ (NoDup pa ∧ NoDup pb ∧ NoDup pc) →
     load_data a b c = Raise InvalidIndexError).
Proof.
  intros pa pb pc. rewrite load_data_unfold.
  destruct (sanitize_margin_outcome c) as [Hmany Hfew].
  split; [|split].
  - intros Hlen. by rewrite Hmany.
  - intros Hlen Hor. destruct (Hfew Hlen) as (d & -> & Hd).
    rewrite bind_Ok.
    pose proof (prepared_columns_ext 2024 d c Hd) as Hpd.
    destruct Hor as [[Hb Hc]|(Ha & Hb & Hc)].
    + rewrite concat_3_equal; [eauto|done|by rewrite Hpd].
    + apply concat_total; [done..|by rewrite Hpd].
  - intros Hlen Hne Hnd. destruct (Hfew Hlen) as (d & -> & Hd).
    rewrite bind_Ok.
    pose proof (prepared_columns_ext 2024 d c Hd) as Hpd.
    apply concat_3_raises; by rewrite Hpd.
Qed.

(** ** The column order of the unioned table *)

Lemma unique_from_app_NoDup {A} `{EqDecision A} (seen a l : list A) :
  NoDup a → (∀ x, x ∈ a → x ∉ seen) →
  unique_from seen (a ++ l) = (a ++ unique_from (reverse a ++ seen) l)%list.
Proof.
  revert seen. induction a as [|x a IH]; intros seen Hnd Hfresh; [done|].
  apply NoDup_cons in Hnd as [Hx Hnd]. simpl.
  rewrite decide_False by (apply Hfresh, list_elem_of_here).
  rewrite IH; [|done|].
  - by rewrite reverse_cons, <- app_assoc.
  - intros y Hy. apply not_elem_of_cons. split; [by intros ->|].
    by apply Hfresh, list_elem_of_further.
Qed.

(** X8.  Whenever [load_data] returns, the columns of the unioned table
    start with the columns of the prepared 2014 frame, in their order; the
    labels only later datasets have come after them. *)
Theorem unioned_columns_start_with_2014 a b c u :
  load_data a b c = Ok u →
  columns (prepared 2014 a) `prefix_of` columns u.
Proof.
  rewrite load_data_unfold.
  destruct (sanitize_margin c) as [d|]; [rewrite bind_Ok|done].
  intros Hcat.
  destruct (concat_3 _ _ _ _ Hcat) as (Ra & Rb & Rc & Hcols & _ & Ha & _).
  rewrite Hcols. unfold union_indexes. case_bool_decide as Heq; [done|].
  unfold unique. simpl.
  assert (Hnd : NoDup (columns (prepared 2014 a))).
  { rewrite Hcols in Ha. unfold union_indexes in Ha.
    rewrite bool_decide_eq_false_2 in Ha by done.
    unfold align, get_indexer in Ha.
    case_bool_decide as Hsame.
    - rewrite Hsame. apply NoDup_unique_from.
    - by case_bool_decide. }
  rewrite unique_from_app_NoDup; [|done|].
  - by eexists.
  - intros x _. apply not_elem_of_nil.
Qed.

(** ** The filtered view for arbitrary choices *)

Global Instance passes_dec cols c choice r : Decision (passes cols c choice r).
Proof. unfold passes. apply _. Defined.

Lemma cascade_inv c choice f f' :
  cascade c choice f = Ok f' →
  columns f' = columns f
  ∧ rows f' = filter (passes (columns f) c choice) (rows f).
Proof.
  unfold cascade, has, series_of. case_bool_decide as Hin.
  - destruct (positions c (columns f)) as [|i [|j ps]] eqn:Hpos; [done| |done].
    rewrite bind_Ok. fold (column i (rows f)).
    destruct (sorted_check _); [rewrite bind_Ok|done].
    case_decide as Hch; intros [= <-].
    + rewrite getitem_mask_select. split; [done|]. simpl.
      apply list_filter_iff. intros r. unfold passes, cells_at.
      rewrite Hpos. simpl. rewrite Forall_singleton. tauto.
    + split; [done|]. symmetry. apply filter_all, Forall_forall.
      intros r _. right. left.
      destruct (decide (choice = All)); [done|]. by destruct Hch.
  - intros [= <-]. split; [done|]. symmetry. apply filter_all, Forall_forall.
    intros r _. by left.
Qed.

Lemma filtered_view_inv df ctl v :
  filtered_view df ctl = Ok v →
  columns v = columns df
  ∧ rows v
    = filter (fun r =>
                Forall (fun x => py_eqb x (sel_year ctl) = true)
                       (cells_at (columns df) "year" r)
                ∧ passes (columns df) "state" (sel_state ctl) r
                ∧ passes (columns df) "party" (sel_party ctl) r)
             (rows df).
Proof.
  unfold filtered_view. intros Hv.
  destruct (year_filter (sel_year ctl) df) as [f1|] eqn:H1; [|done].
  rewrite bind_Ok in Hv.
  destruct (cascade "state" (sel_state ctl) f1) as [f2|] eqn:H2; [|done].
  rewrite bind_Ok in Hv.
  destruct (year_filter_inv _ _ _ H1) as (i & Hpos & ->).
  destruct (cascade_inv _ _ _ _ H2) as [Hc2 Hr2].
  destruct (cascade_inv _ _ _ _ Hv) as [Hc3 Hr3].
  simpl in Hc2, Hr2. rewrite Hc2 in Hc3, Hr3.
  split; [done|].
  rewrite Hr3, Hr2, !list_filter_filter. apply list_filter_iff.
  intros r. unfold cells_at. rewrite Hpos. simpl.
  rewrite Forall_singleton. tauto.
Qed.

(** X9.  Whenever the three sidebar choices leave a view, for any choices:
    the view has all columns of the table, so [has] answers on it as on the
    table; its rows are, in table order, exactly the rows whose year equals
    the chosen year and that pass the state box and the party box. *)
Theorem filtered_view_rows df ctl v :
  filtered_view df ctl = Ok v →
  columns v = columns df
  ∧ rows v
    = filter (fun r =>
                Forall (fun x => py_eqb x (sel_year ctl) = true)
                       (cells_at (columns df) "year" r)
                ∧ passes (columns df) "state" (sel_state ctl) r
                ∧ passes (columns df) "party" (sel_party ctl) r)
             (rows df)
  ∧ rows v `sublist_of` rows df
  ∧ ∀ c, has v c = has df c.
Proof.
  intros Hv. destruct (filtered_view_inv df ctl v Hv) as [Hcols Hrows].
  split; [done|]. split; [done|]. split.
  - rewrite Hrows. apply sublist_filter.
  - intros c. unfold has. by rewrite Hcols.
Qed.

(** ** The view of one year of the unioned table *)

Lemma comparable_numbers i rs :
  Forall (fun r => ∃ z, cell r i = Num z) rs → comparable (column i rs).
Proof.
  intros HF a b (ra & -> & Ha)%list_elem_of_fmap (rb & -> & Hb)%list_elem_of_fmap.
  rewrite Forall_forall in HF.
  destruct (HF ra Ha) as [za ->]. by destruct (HF rb Hb) as [zb ->].
Qed.

Lemma tagged_cells_numbers cols i y R :
  positions "year" cols = [i] → Forall (tagged cols y) R →
  Forall (fun r => ∃ z, cell r i = Num z) R.
Proof.
  intros Hpos HF. eapply Forall_impl; [exact HF|].
  intros r Hr. exists (of_int y). by eapply tagged_cell.
Qed.

Lemma year_views_blocks a b c u i :
  rectangular a → rectangular b → rectangular c →
  load_data a b c = Ok u →
  positions "year" (columns u) = [i] →
  ∃ d f14 f19 f24,
    sanitize_margin c = Ok d
    ∧ year_filter (Num (of_int 2014)) u = Ok f14
    ∧ year_filter (Num (of_int 2019)) u = Ok f19
    ∧ year_filter (Num (of_int 2024)) u = Ok f24
    ∧ rows u = (rows f14 ++ rows f19 ++ rows f24)%list
    ∧ Forall2 (laid_out (columns (mapped a)) (columns u) 2014)
              (rows a) (rows f14)
    ∧ Forall2 (laid_out (columns (mapped b)) (columns u) 2019)
              (rows b) (rows f19)
    ∧ Forall2 (laid_out (columns (mapped c)) (columns u) 2024)
              (rows d) (rows f24)
    ∧ ∀ y, y ≠ 2014 → y ≠ 2019 → y ≠ 2024 →
           year_filter (Num (of_int y)) u = Ok {| columns := columns u; rows := [] |}.
Proof.
  intros Ha Hb Hc Hload Hpos.
  destruct (load_data_rows a b c u Ha Hb Hc Hload)
    as (d & Hs & _ & _ & R14 & R19 & R24 & Hrows & H14 & H19 & H24).
  pose proof (laid_out_tagged _ _ _ _ _ H14) as T14.
  pose proof (laid_out_tagged _ _ _ _ _ H19) as T19.
  pose proof (laid_out_tagged _ _ _ _ _ H24) as T24.
  assert (Hcmp : comparable (column i (rows u))).
  { apply comparable_numbers. rewrite Hrows, !Forall_app.
    repeat split; by eapply tagged_cells_numbers. }
  assert (Hsel : ∀ y, year_filter (Num (of_int y)) u
    = Ok {| columns := columns u;
            rows := (filter (fun r => py_eqb (cell r i) (Num (of_int y)) = true) R14
                     ++ filter (fun r => py_eqb (cell r i) (Num (of_int y)) = true) R19
                     ++ filter (fun r => py_eqb (cell r i) (Num (of_int y)) = true) R24)%list |}).
  { intros y. rewrite (year_filter_ok u i (Num (of_int y)) Hpos Hcmp).
    unfold select. by rewrite Hrows, !filter_app. }
  exists d, {| columns := columns u; rows := R14 |},
    {| columns := columns u; rows := R19 |},
    {| columns := columns u; rows := R24 |}.
  split; [done|]. simpl. repeat split; try done.
  - rewrite Hsel.
    rewrite (select_tagged_same _ i 2014 R14 Hpos T14).
    rewrite (select_tagged_other _ i 2014 2019 R19 Hpos) by done.
    rewrite (select_tagged_other _ i 2014 2024 R24 Hpos) by done.
    by rewrite !app_nil_r.
  - rewrite Hsel.
    rewrite (select_tagged_same _ i 2019 R19 Hpos T19).
    rewrite (select_tagged_other _ i 2019 2014 R14 Hpos) by done.
    rewrite (select_tagged_other _ i 2019 2024 R24 Hpos) by done.
    by rewrite app_nil_r.
  - rewrite Hsel.
    rewrite (select_tagged_same _ i 2024 R24 Hpos T24).
    rewrite (select_tagged_other _ i 2024 2014 R14 Hpos) by done.
    rewrite (select_tagged_other _ i 2024 2019 R19 Hpos) by done.
    done.
  - intros y H1 H2 H3. rewrite Hsel.
    rewrite (select_tagged_other _ i y 2014 R14 Hpos) by done.
    rewrite (select_tagged_other _ i y 2019 R19 Hpos) by done.
    rewrite (select_tagged_other _ i y 2024 R24 Hpos) by done.
    done.
Qed.

(** X10.  On the unioned table [load_data] returns, with one [year]
    column, the year selection never raises; the views of 2014, 2019 and
    2024 are the three blocks of the table, each holding the rows of its
    dataset (of the sanitised one for 2024) in their order, cell by cell up
    to a dtype conversion, and the view of any other year is empty. *)
Theorem year_views_partition a b c u i :
  rectangular a → rectangular b → rectangular c →
  load_data a b c = Ok u →
  positions "year" (columns u) = [i] →
  ∃ d f14 f19 f24,
    sanitize_margin c = Ok d
    ∧ year_filter (Num (of_int 2014)) u = Ok f14
    ∧ year_filter (Num (of_int 2019)) u = Ok f19
    ∧ year_filter (Num (of_int 2024)) u = Ok f24
    ∧ rows u = (rows f14 ++ rows f19 ++ rows f24)%list
    ∧ Forall2 (laid_out (columns (mapped a)) (columns u) 2014)
              (rows a) (rows f14)
    ∧ Forall2 (laid_out (columns (mapped b)) (columns u) 2019)
              (rows b) (rows f19)
    ∧ Forall2 (laid_out (columns (mapped c)) (columns u) 2024)
              (rows d) (rows f24)
    ∧ ∀ y, y ≠ 2014 → y ≠ 2019 → y ≠ 2024 →
           year_filter (Num (of_int y)) u = Ok {| columns := columns u; rows := [] |}.
Proof.
  intros Ha Hb Hc Hload Hpos.
  destruct (year_views_blocks a b c u i Ha Hb Hc Hload Hpos)
    as (d & f14 & f19 & f24 & Hs & H14 & H19 & H24 & Hrows & Hrest).
  exists d, f14, f19, f24.
  split; [exact Hs|]. split; [exact H14|]. split; [exact H19|].
  split; [exact H24|]. split; [exact Hrows|]. exact Hrest.
Qed.

(** ** The average metric of a year whose dataset lacks the field *)

Lemma tagged_year_eq cols yb y r :
  tagged cols yb r →
  Forall (fun x => py_eqb x (Num (of_int y)) = true) (cells_at cols "year" r) →
  yb = y.
Proof.
  intros [Hne Hall] Hsel.
  destruct (cells_at cols "year" r) as [|v vs]; [done|].
  apply Forall_cons in Hall as [-> _]. apply Forall_cons in Hsel as [Hv _].
  apply py_eqb_true in Hv; [|done]. injection Hv as Hv.
  by apply (inj of_int) in Hv.
Qed.

(** X11.  On the unioned table, after any sidebar choices for a year whose
    dataset has no column mapping to a field (other than [year]) that labels
    at most one column of the table, the average metric on that field shows
    "not available", even though other years carry the field. *)
Theorem avg_not_available_without_field a b c u ctl f fld :
  rectangular a → rectangular b → rectangular c →
  load_data a b c = Ok u →
  filtered_view u ctl = Ok f →
  fld ≠ "year" →
  (length (positions fld (columns u)) ≤ 1)%nat →
  (sel_year ctl = Num (of_int 2014) ∧ ¬ has_field a fld)
  ∨ (sel_year ctl = Num (of_int 2019) ∧ ¬ has_field b fld)
  ∨ (sel_year ctl = Num (of_int 2024) ∧ ¬ has_field c fld) →
  avg_metric f fld = Ok NotAvailable.
Proof.
  intros Ha Hb Hc Hload Hview Hfld Hlen Hyear.
  destruct (load_data_rows a b c u Ha Hb Hc Hload)
    as (d & Hs & _ & _ & R14 & R19 & R24 & Hrows & H14 & H19 & H24).
  pose proof (laid_out_tagged _ _ _ _ _ H14) as T14.
  pose proof (laid_out_tagged _ _ _ _ _ H19) as T19.
  pose proof (laid_out_tagged _ _ _ _ _ H24) as T24.
  destruct (filtered_view_inv u ctl f Hview) as (Hcols & Hfr).
  assert (Hnull : Forall (fun r => Forall (fun v => v = NaN)
                                     (cells_at (columns u) fld r)) (rows f)).
  { rewrite Hfr. apply Forall_forall.
    intros r [(Hsel & _ & _) Hin]%list_elem_of_filter.
    rewrite Hrows, !elem_of_app in Hin.
    rewrite Forall_forall in T14, T19, T24.
    destruct Hyear as [[Hy Hn]|[[Hy Hn]|[Hy Hn]]]; rewrite Hy in Hsel.
    - destruct Hin as [Hin|[Hin|Hin]].
      + assert (HN := laid_out_nulls _ _ _ _ _ fld Hfld
                        ltac:(by rewrite has_field_mapped) H14).
        rewrite Forall_forall in HN. by apply HN.
      + by pose proof (tagged_year_eq _ _ _ _ (T19 r Hin) Hsel).
      + by pose proof (tagged_year_eq _ _ _ _ (T24 r Hin) Hsel).
    - destruct Hin as [Hin|[Hin|Hin]].
      + by pose proof (tagged_year_eq _ _ _ _ (T14 r Hin) Hsel).
      + assert (HN := laid_out_nulls _ _ _ _ _ fld Hfld
                        ltac:(by rewrite has_field_mapped) H19).
        rewrite Forall_forall in HN. by apply HN.
      + by pose proof (tagged_year_eq _ _ _ _ (T24 r Hin) Hsel).
    - destruct Hin as [Hin|[Hin|Hin]].
      + by pose proof (tagged_year_eq _ _ _ _ (T14 r Hin) Hsel).
      + by pose proof (tagged_year_eq _ _ _ _ (T19 r Hin) Hsel).
      + assert (HN := laid_out_nulls _ _ _ _ _ fld Hfld
                        ltac:(by rewrite has_field_mapped) H24).
        rewrite Forall_forall in HN. by apply HN. }
  rewrite <- Hcols in Hnull, Hlen.
  destruct (positions fld (columns f)) as [|j [|k ps]] eqn:Hpos;
    [| |simpl in Hlen; lia].
  - apply avg_metric_absent. by apply positions_nil_absent.
  - rewrite (avg_metric_present f fld j Hpos).
    rewrite usable_nulls; [apply show_mean_nil|].
    unfold column. apply Forall_fmap. eapply Forall_impl; [exact Hnull|].
    intros r Hr. unfold cells_at in Hr. rewrite Hpos in Hr. simpl in Hr.
    rewrite Forall_singleton in Hr. exact Hr.
Qed.

(** ** The choices of a sidebar box *)

Global Instance str_le_total : Total str_le.
Proof. intros x y. unfold str_le. apply String.leb_total. Qed.

Lemma strings_all l :
  Forall (fun v => is_str v = true) l → Str <$> strings l = l.
Proof.
  induction 1 as [|v l Hv Hl IH]; [done|].
  destruct v; simplify_eq/=. by rewrite IH.
Qed.

Lemma numbers_all l :
  Forall (fun v => is_str v = false ∧ v ≠ NaN) l → Num <$> numbers l = l.
Proof.
  induction 1 as [|v l [Hv Hn] Hl IH]; [done|].
  destruct v; simplify_eq/=. by rewrite IH.
Qed.

Lemma elem_of_dropna v s : v ∈ dropna s ↔ v ∈ s ∧ v ≠ NaN.
Proof. unfold dropna. rewrite list_elem_of_filter. tauto. Qed.

Lemma sorted_check_outcome l :
  (sorted_check l = Raise TypeError
   ∧ (∃ a b, a ∈ l ∧ b ∈ l ∧ is_str a = true ∧ is_str b = false))
  ∨ (sorted_check l = Ok ()
     ∧ (Forall (fun v => is_str v = true) l
        ∨ Forall (fun v => is_str v = false) l)).
Proof.
  unfold sorted_check.
  destruct (existsb is_str l) eqn:H1; simpl.
  - destruct (existsb (fun v => negb (is_str v)) l) eqn:H2.
    + left. split; [done|].
      apply existsb_exists in H1 as (a & Ha%list_elem_of_In & Hsa).
      apply existsb_exists in H2 as (b & Hb%list_elem_of_In & Hsb).
      exists a, b. repeat split; try done. by destruct (is_str b).
    + right. split; [done|]. left. apply Forall_forall. intros v Hv.
      destruct (is_str v) eqn:Hs; [done|].
      assert (existsb (fun v => negb (is_str v)) l = true); [|congruence].
      apply existsb_exists. exists v. rewrite <- list_elem_of_In.
      by rewrite Hs.
  - right. split; [done|]. right. apply Forall_forall. intros v Hv.
    destruct (is_str v) eqn:Hs; [|done].
    assert (existsb is_str l = true); [|congruence].
    apply existsb_exists. exists v. by rewrite <- list_elem_of_In.
Qed.

Lemma box_options_values s opts :
  box_options s = Ok opts →
  ∃ vals, opts = All :: vals
          ∧ vals ≡ₚ unique (dropna s)
          ∧ Sorted value_le vals.
Proof.
  unfold box_options. set (vals0 := unique (dropna s)).
  assert (Hnn : ∀ v, v ∈ vals0 → v ≠ NaN).
  { intros v. unfold vals0. rewrite elem_of_unique, elem_of_dropna. tauto. }
  destruct (sorted_check_outcome vals0) as [[-> _]|[-> Hhom]]; [done|].
  rewrite bind_Ok. intros [= <-].
  destruct (forallb is_str vals0) eqn:Hall.
  - eexists. split; [done|]. split.
    + rewrite merge_sort_Permutation. rewrite strings_all; [done|].
      apply Forall_forall. intros v Hv.
      rewrite forallb_forall in Hall. apply Hall. by apply list_elem_of_In.
    + eapply Sorted_fmap; [|apply Sorted_merge_sort, _].
      intros x y Hxy. exact Hxy.
  - eexists. split; [done|].
    assert (Hnum : Forall (fun v => is_str v = false ∧ v ≠ NaN) vals0).
    { destruct Hhom as [Hstr|Hnum].
      - assert (forallb is_str vals0 = true); [|congruence].
        apply forallb_forall. intros v Hv%list_elem_of_In.
        rewrite Forall_forall in Hstr. by apply Hstr.
      - apply Forall_forall. intros v Hv. split.
        + rewrite Forall_forall in Hnum. by apply Hnum.
        + by apply Hnn. }
    split.
    + rewrite merge_sort_Permutation. by rewrite numbers_all.
    + eapply Sorted_fmap; [|apply Sorted_merge_sort, _].
      intros x y Hxy. exact Hxy.
Qed.

(** X12.  The choices of a sidebar box: "All" first, then every value of
    the column that is not null, each once, in ascending order; sorting
    raises [TypeError] exactly when the column holds both a string and a
    number, and nothing else is ever raised. *)
Theorem box_options_spec s :
  (∀ opts, box_options s = Ok opts →
     ∃ vals, opts = All :: vals
             ∧ NoDup vals
             ∧ (∀ v, v ∈ vals ↔ v ∈ s ∧ v ≠ NaN)
             ∧ Sorted value_le vals
             ∧ length vals = nunique s)
  ∧ (box_options s = Raise TypeError ↔
     ∃ x z, Str x ∈ s ∧ Num z ∈ s)
  ∧ (∀ e, box_options s = Raise e → e = TypeError).
Proof.
  assert (Hmem : ∀ v, v ∈ unique (dropna s) ↔ v ∈ s ∧ v ≠ NaN).
  { intros v. by rewrite elem_of_unique, elem_of_dropna. }
  split; [|split].
  - intros opts Hopts.
    destruct (box_options_values s opts Hopts) as (vals & -> & Hperm & Hsort).
    exists vals. split; [done|]. split.
    + rewrite Hperm. apply NoDup_unique_from.
    + split; [|split; [done|]].
      * intros v. by rewrite Hperm.
      * unfold nunique. by rewrite Hperm.
  - unfold box_options.
    destruct (sorted_check_outcome (unique (dropna s)))
      as [[-> Hmix]|[-> Hhom]].
    + split; [|done]. intros _.
      destruct Hmix as (a & b & Ha & Hb & Hsa & Hsb).
      apply Hmem in Ha as [Ha _]. apply Hmem in Hb as [Hb Hbn].
      destruct a as [| |x]; simplify_eq/=. destruct b as [|z|]; simplify_eq/=.
      by exists x, z.
    + rewrite bind_Ok. split; [done|]. intros (x & z & Hx & Hz).
      assert (Hxv : Str x ∈ unique (dropna s)) by (by apply Hmem).
      assert (Hzv : Num z ∈ unique (dropna s)) by (by apply Hmem).
      destruct Hhom as [Hh|Hh]; rewrite Forall_forall in Hh.
      * by specialize (Hh _ Hzv).
      * by specialize (Hh _ Hxv).
  - intros e. unfold box_options.
    destruct (sorted_check_outcome (unique (dropna s))) as [[-> _]|[-> _]].
    + by intros [= <-].
    + by rewrite bind_Ok.
Qed.

(** X13.  On a view with one column labelled [c], the cascading filter
    returns exactly when the choices of its box can be built and raises
    what building them raises; every choice the box offers, other than
    "All", leaves a view that is not empty and holds only rows with that
    value. *)
Theorem offered_choice_selects f c i :
  positions c (columns f) = [i] →
  (∀ e choice, box_options (column i (rows f)) = Raise e →
               cascade c choice f = Raise e)
  ∧ (∀ opts choice,
       box_options (column i (rows f)) = Ok opts →
       choice ∈ opts → choice ≠ All →
       ∃ f', cascade c choice f = Ok f'
             ∧ rows f' ≠ []
             ∧ Forall (fun r => cell r i = choice) (rows f')
             ∧ rows f' `sublist_of` rows f).
Proof.
  intros Hpos.
  assert (Hin : c ∈ columns f).
  { destruct (decide (c ∈ columns f)) as [|Hn]; [done|].
    apply positions_absent in Hn. congruence. }
  split.
  - intros e choice. unfold box_options, cascade, has, series_of.
    rewrite bool_decide_eq_true_2, Hpos by done. rewrite bind_Ok.
    fold (column i (rows f)).
    destruct (sorted_check _); [done|]. by intros [= <-].
  - intros opts choice Hopts Hch Hne.
    destruct (box_options_values (column i (rows f)) opts Hopts)
      as (vals & -> & Hperm & _).
    apply elem_of_cons in Hch as [?|Hch]; [done|].
    rewrite Hperm, elem_of_unique, elem_of_dropna in Hch.
    destruct Hch as [Hcol Hnn].
    assert (Hcas : cascade c choice f = Ok (select i choice f)).
    { unfold box_options in Hopts. unfold cascade, has, series_of.
      rewrite bool_decide_eq_true_2, Hpos by done. rewrite bind_Ok.
      fold (column i (rows f)).
      destruct (sorted_check _); [|done]. rewrite bind_Ok.
      rewrite decide_True by done. by rewrite getitem_mask_select. }
    exists (select i choice f). split; [done|]. simpl. split; [|split].
    + apply list_elem_of_fmap in Hcol as (r & -> & Hr).
      intros Hnil.
      assert (Hrin : r ∈ filter (fun r0 => py_eqb (cell r0 i) (cell r i) = true)
                                (rows f)).
      { apply list_elem_of_filter. split; [|done]. by apply py_eqb_true. }
      rewrite Hnil in Hrin. by apply elem_of_nil in Hrin.
    + apply Forall_forall. intros r [Hr _]%list_elem_of_filter.
      by apply py_eqb_true in Hr.
    + apply sublist_filter.
Qed.

(** ** The metrics of the dashboard *)

Lemma cascade_positions c choice f f' :
  cascade c choice f = Ok f' → c ∈ columns f →
  ∃ i, positions c (columns f) = [i].
Proof.
  unfold cascade, has, series_of. intros Hc Hin.
  rewrite bool_decide_eq_true_2 in Hc by done.
  destruct (positions c (columns f)) as [|i [|j ps]] eqn:Hpos; [done| |done].
  by exists i.
Qed.

Lemma filtered_view_party_position df ctl f :
  filtered_view df ctl = Ok f → "party" ∈ columns df →
  ∃ i, positions "party" (columns df) = [i].
Proof.
  unfold filtered_view. intros Hv Hin.
  destruct (year_filter (sel_year ctl) df) as [f1|] eqn:H1; [|done].
  rewrite bind_Ok in Hv.
  destruct (cascade "state" (sel_state ctl) f1) as [f2|] eqn:H2; [|done].
  rewrite bind_Ok in Hv.
  destruct (year_filter_inv _ _ _ H1) as (i & _ & ->).
  destruct (cascade_inv _ _ _ _ H2) as [Hc2 _]. simpl in Hc2.
  rewrite <- Hc2 in Hin |- *. by eapply cascade_positions.
Qed.

Lemma length_unique_from {A} `{EqDecision A} (seen l : list A) :
  (length (unique_from seen l) ≤ length l)%nat.
Proof.
  revert seen. induction l as [|x l IH]; intros seen; simpl; [done|].
  case_decide; simpl; [specialize (IH seen)|specialize (IH (x :: seen))]; lia.
Qed.

Lemma nunique_le s : (nunique s ≤ length s)%nat.
Proof.
  unfold nunique, unique, dropna.
  etransitivity; [apply length_unique_from|apply length_filter].
Qed.

(** X14.  Once the sidebar choices have left a view: Records is the
    number of rows of the view, at most that of the table; Parties is "not
    available" exactly when the table has no [party] column and otherwise a
    count that never exceeds Records; the four metrics are shown as soon as
    the two averages are computed, and the only failures are those of the
    averages. *)
Theorem kpis_after_view df ctl f :
  filtered_view df ctl = Ok f →
  (length (rows f) ≤ length (rows df))%nat
  ∧ ∃ p, parties_metric f = Ok p
      ∧ (p = CountNotAvailable ↔ has df "party" = false)
      ∧ (∀ n, p = Count n → (n ≤ length (rows f))%nat)
      ∧ (∀ votes margin,
           avg_metric f "votes" = Ok votes →
           avg_metric f "margin" = Ok margin →
           dashboard_kpis df ctl
           = Ok {| kpi_records := length (rows f); kpi_parties := p;
                   kpi_avg_votes := votes; kpi_avg_margin := margin |})
      ∧ (∀ k, dashboard_kpis df ctl = Ok k →
              kpi_records k = length (rows f) ∧ kpi_parties k = p
              ∧ avg_metric f "votes" = Ok (kpi_avg_votes k)
              ∧ avg_metric f "margin" = Ok (kpi_avg_margin k))
      ∧ (∀ e, dashboard_kpis df ctl = Raise e →
              avg_metric f "votes" = Raise e
              ∨ avg_metric f "margin" = Raise e).
Proof.
  intros Hv.
  destruct (filtered_view_inv df ctl f Hv) as [Hcols Hrows].
  split; [rewrite Hrows; apply length_filter|].
  assert (Hp : ∃ p, parties_metric f = Ok p
                    ∧ (p = CountNotAvailable ↔ has df "party" = false)
                    ∧ (∀ n, p = Count n → (n ≤ length (rows f))%nat)).
  { unfold parties_metric, has at 1, series_of. rewrite Hcols.
    case_bool_decide as Hp.
    - destruct (filtered_view_party_position df ctl f Hv Hp) as [i Hi].
      rewrite Hi, bind_Ok. eexists. split; [done|]. split.
      + unfold has. by rewrite bool_decide_eq_false.
      + intros n [= <-]. etransitivity; [apply nunique_le|].
        by rewrite length_fmap.
    - eexists. split; [done|]. split; [|done].
      unfold has. by rewrite bool_decide_eq_false. }
  destruct Hp as (p & Hp & Hna & Hcount). exists p.
  split; [done|]. split; [done|]. split; [done|].
  unfold dashboard_kpis. rewrite Hv, bind_Ok, Hp, bind_Ok.
  unfold records_metric. split; [|split].
  - intros votes margin -> ->. by rewrite !bind_Ok.
  - intros k.
    destruct (avg_metric f "votes") as [votes|]; [rewrite bind_Ok|done].
    destruct (avg_metric f "margin") as [margin|]; [rewrite bind_Ok|done].
    by intros [= <-].
  - intros e.
    destruct (avg_metric f "votes") as [votes|]; [rewrite bind_Ok|].
    + destruct (avg_metric f "margin") as [margin|]; [done|].
      intros [= <-]. by right.
    + intros [= <-]. by left.
Qed.

Lemma unique_from_all_seen {A} `{EqDecision A} (seen l : list A) :
  Forall (fun x => x ∈ seen) l → unique_from seen l = [].
Proof.
  induction 1 as [|x l Hx Hl IH]; simpl; [done|]. by rewrite decide_True.
Qed.

Lemma unique_constant {A} `{EqDecision A} (x : A) (l : list A) :
  Forall (fun y => y = x) l → l ≠ [] → unique l = [x].
Proof.
  intros HF Hne. destruct l as [|y l]; [done|].
  apply Forall_cons in HF as [-> HF]. unfold unique.
  change (unique_from [] (x :: l))
    with (if decide (x ∈ []) then unique_from [] l
          else x :: unique_from [x] l).
  rewrite decide_False by apply not_elem_of_nil.
  rewrite unique_from_all_seen; [done|].
  eapply Forall_impl; [exact HF|]. intros y ->. apply list_elem_of_here.
Qed.

(** X15.  After a party other than "All" was chosen, the Parties metric
    shows 1, or 0 when the view is empty. *)
Theorem parties_metric_after_choice df ctl f :
  filtered_view df ctl = Ok f →
  has df "party" = true →
  sel_party ctl ≠ All →
  parties_metric f
  = Ok (Count (if decide (rows f = []) then 0 else 1)%nat).
Proof.
  intros Hv Hhas Hch. unfold has in Hhas. apply bool_decide_eq_true in Hhas.
  destruct (filtered_view_inv df ctl f Hv) as [Hcols Hrows].
  destruct (filtered_view_party_position df ctl f Hv Hhas) as [i Hi].
  unfold parties_metric, has, series_of. rewrite Hcols.
  rewrite bool_decide_eq_true_2, Hi by done. rewrite bind_Ok.
  assert (Hall : Forall (fun r => cell r i = sel_party ctl
                                  ∧ cell r i ≠ NaN) (rows f)).
  { rewrite Hrows. apply Forall_forall.
    intros r [(_ & _ & Hp) _]%list_elem_of_filter.
    destruct Hp as [?|[?|Hp]]; [done..|].
    unfold cells_at in Hp. rewrite Hi in Hp. simpl in Hp.
    rewrite Forall_singleton in Hp. unfold py_eqb in Hp.
    apply andb_true_iff in Hp as [Heq Hn]. apply bool_decide_eq_true in Heq.
    split; [done|]. intros Hnan. by rewrite Hnan in Hn. }
  do 2 f_equal. unfold nunique. case_decide as Hnil.
  - by rewrite Hnil.
  - rewrite (unique_constant (sel_party ctl)); [done| |].
    + apply Forall_forall. intros v [Hv' _]%elem_of_dropna.
      apply list_elem_of_fmap in Hv' as (r & -> & Hr).
      rewrite Forall_forall in Hall. by apply Hall.
    + destruct (rows f) as [|r rs]; [done|].
      apply Forall_cons in Hall as [[_ Hr] _]. simpl.
      unfold dropna. rewrite filter_cons, decide_True by done. done.
Qed.

(** ** The data preview *)

(** X16.  The preview of a year's view of the unioned table shows the first
    twenty rows of that year's dataset (of the sanitised one for 2024), in
    their order, cell by cell up to a dtype conversion, on all columns of
    the table; a dataset of at most twenty rows is shown whole. *)
Theorem preview_of_year_view a b c u i :
  rectangular a → rectangular b → rectangular c →
  load_data a b c = Ok u →
  positions "year" (columns u) = [i] →
  ∃ d f14 f19 f24,
    sanitize_margin c = Ok d
    ∧ year_filter (Num (of_int 2014)) u = Ok f14
    ∧ year_filter (Num (of_int 2019)) u = Ok f19
    ∧ year_filter (Num (of_int 2024)) u = Ok f24
    ∧ columns (preview f14) = columns u
    ∧ columns (preview f19) = columns u
    ∧ columns (preview f24) = columns u
    ∧ Forall2 (laid_out (columns (mapped a)) (columns u) 2014)
              (firstn 20 (rows a)) (rows (preview f14))
    ∧ Forall2 (laid_out (columns (mapped b)) (columns u) 2019)
              (firstn 20 (rows b)) (rows (preview f19))
    ∧ Forall2 (laid_out (columns (mapped c)) (columns u) 2024)
              (firstn 20 (rows d)) (rows (preview f24))
    ∧ ((length (rows a) ≤ 20)%nat → preview f14 = f14)
    ∧ ((length (rows b) ≤ 20)%nat → preview f19 = f19)
    ∧ ((length (rows d) ≤ 20)%nat → preview f24 = f24).
Proof.
  intros Ha Hb Hc Hload Hpos.
  destruct (year_views_blocks a b c u i Ha Hb Hc Hload Hpos)
    as (d & f14 & f19 & f24 & Hs & H14 & H19 & H24 & _ & F14 & F19 & F24 & _).
  assert (Hcols : ∀ y f, year_filter (Num (of_int y)) u = Ok f → columns f = columns u).
  { intros y f Hf. by destruct (year_filter_inv _ _ _ Hf) as (j & _ & ->). }
  assert (Hwhole : ∀ (f : DataFrame) (rs : list (list value)) P,
             Forall2 P rs (rows f) → (length rs ≤ 20)%nat → preview f = f).
  { intros f rs P HF Hlen. apply frame_eq; [done|]. simpl.
    apply firstn_all2. by rewrite <- (Forall2_length _ _ _ HF). }
  exists d, f14, f19, f24. split; [done|]. split; [done|].
  split; [done|]. split; [done|].
  unfold preview at 1 2 3 4 5 6, head_rows. simpl.
  split; [by apply (Hcols 2014)|]. split; [by apply (Hcols 2019)|].
  split; [by apply (Hcols 2024)|].
  split; [by apply Forall2_take|]. split; [by apply Forall2_take|].
  split; [by apply Forall2_take|].
  split; [by eapply Hwhole|]. split; by eapply Hwhole.
Qed.

(** ** What the sidebar filters raise *)

Lemma cascade_raises c choice f e :
  cascade c choice f = Raise e → e = AttributeError ∨ e = TypeError.
Proof.
  unfold cascade, has, series_of. case_bool_decide as Hin; [|done].
  destruct (positions c (columns f)) as [|i [|j ps]] eqn:Hpos.
  - apply positions_nil_absent in Hpos. done.
  - rewrite bind_Ok. unfold sorted_check.
    destruct (_ && _); [intros [= <-]; by right|].
    rewrite bind_Ok. by case_decide.
  - intros [= <-]. by left.
Qed.

(** X17.  The sidebar filters raise [KeyError] exactly when the table has
    no [year] column, raise [AttributeError] when several columns are
    labelled [year], and never raise anything but [KeyError],
    [AttributeError] and [TypeError]. *)
Theorem filtered_view_raises df ctl :
  (filtered_view df ctl = Raise KeyError ↔ "year" ∉ columns df)
  ∧ ((2 ≤ length (positions "year" (columns df)))%nat →
     filtered_view df ctl = Raise AttributeError)
  ∧ (∀ e, filtered_view df ctl = Raise e →
          e = KeyError ∨ e = AttributeError ∨ e = TypeError).
Proof.
  unfold filtered_view, year_filter, series_of.
  destruct (positions "year" (columns df)) as [|i [|j ps]] eqn:Hpos.
  - apply positions_nil_absent in Hpos.
    split; [done|]. split; [simpl; lia|]. intros e [= <-]. by left.
  - assert (Hin : "year" ∈ columns df).
    { destruct (decide ("year" ∈ columns df)) as [|Hn]; [done|].
      apply positions_absent in Hn. congruence. }
    assert (Hother : ∀ e, filtered_view df ctl = Raise e →
                          e = AttributeError ∨ e = TypeError).
    { unfold filtered_view, year_filter, series_of. rewrite Hpos, bind_Ok.
      intros e. unfold sorted_check at 1.
      destruct (_ && _); [intros [= <-]; by right|]. rewrite !bind_Ok.
      destruct (cascade "state" _ _) as [f2|e2] eqn:H2.
      - rewrite bind_Ok. apply cascade_raises.
      - intros [= <-]. by eapply cascade_raises. }
    unfold filtered_view, year_filter, series_of in Hother.
    rewrite Hpos in Hother.
    split; [|split; [simpl; lia|]].
    + split; [|done]. intros Hk. by destruct (Hother _ Hk).
    + intros e He. right. by apply Hother.
  - split; [|split].
    + split; [done|]. intros Hn. apply positions_absent in Hn. congruence.
    + done.
    + intros e [= <-]. right. by left.
Qed.

End Model.

(** * The properties on examples

    An instance of the numbers, to run the definitions: numbers are exact
    integers, a string is read as a number when it is a decimal integer
    literal, no conversion changes a cell, and a mean is truncated to an
    integer as soon as it is computed (which is what the script does with
    it on the next line).  On tables whose numbers are small integers and
    whose strings are decimal integer literals or spell no number, these
    are the tables and the metrics the script computes. *)

Definition int_coerce (v : @value Z) : @value Z :=
  match v with
  | Str s => match Numeric.parse_int s with Some z => Num z | None => NaN end
  | _ => v
  end.

Definition int_mean (zs : list Z) : option Z :=
  match zs with
  | [] => None
  | _ => Some (Z.quot (foldr Z.add 0 zs) (Z.of_nat (length zs)))
  end.

Global Instance int_numbers : @Numbers Z := {
  of_int z := z;
  numeric_str s := bool_decide (is_Some (Numeric.parse_int s));
  to_numeric s := int_coerce <$> s;
  concat_values := mjoin;
  num_le := Z.le;
  num_le_dec := _;
  mean := int_mean;
  to_int := Ok
}.

Section Instance.

Import Numeric.

Lemma lskip_Forall (P : ascii → Prop) l : Forall P l → Forall P (lskip l).
Proof.
  induction 1 as [|c l Hc Hl IH]; simpl; [constructor|].
  destruct (isspace_c c); [exact IH | by constructor].
Qed.

Lemma unsigned_no_digit l :
  Forall (fun c => digit c = None) l → unsigned l = None.
Proof. destruct 1 as [|c l Hc Hl]; simpl; [done|]. by rewrite Hc. Qed.

Lemma parse_int_no_digit s :
  Forall (fun c => digit c = None) (list_ascii_of_string s) →
  parse_int s = None.
Proof.
  intros Hs. unfold parse_int.
  assert (Hl : Forall (fun c => digit c = None)
                 (reverse (lskip (reverse (lskip (list_ascii_of_string s)))))).
  { rewrite Forall_reverse. apply lskip_Forall. rewrite Forall_reverse.
    by apply lskip_Forall. }
  destruct (reverse _) as [|c l]; [done|].
  pose proof (unsigned_no_digit _ Hl) as H1.
  apply Forall_cons in Hl as [_ Hl].
  pose proof (unsigned_no_digit _ Hl) as H2.
  destruct c as [[] [] [] [] [] [] [] []];
    first [exact H1 | by rewrite H2].
Qed.

Global Instance int_numbers_laws : @NumbersLaws Z int_numbers.
Proof.
  split.
  - intros x y Heq. exact Heq.
  - intros s z Hz. simpl. apply bool_decide_eq_true. by rewrite Hz.
  - intros s Hs. simpl. apply bool_decide_eq_false.
    rewrite parse_int_no_digit; [by intros [z Hz]|].
    eapply Forall_impl; [exact Hs|]. by intros c [Hc _].
  - intros s. simpl. apply Forall2_fmap_r, Forall_Forall2_diag, Forall_forall.
    intros v _. destruct v as [|x|str]; simpl; [done|eauto|].
    destruct (parse_int str) as [z|] eqn:Hz.
    + rewrite bool_decide_eq_true_2 by eauto.
      exists z. split; [done|]. by intros z' [= <-].
    + rewrite bool_decide_eq_false_2; [done|]. by intros [z Hz'].
  - intros blocks. simpl. apply Forall_Forall2_diag, Forall_forall.
    intros r _. apply same_cells_refl.
  - simpl. apply _.
  - reflexivity.
Qed.

End Instance.

(** A frame of the instance. *)
Abbreviation table := (@mkDF Z).

Local Ltac table_wf :=
  split; [apply (bool_decide_unpack _); vm_compute; exact I
         | unfold rectangular; simpl; repeat constructor].

Lemma map_semantic_duplicates_witness :
  ¬ NoDup (columns (map_semantic
                      (table ["state"; "state_name"; "votes"]
                             [[Str "UP"; Str "Uttar Pradesh"; Num 10]]))).
Proof.
  apply (map_semantic_duplicates
           (table ["state"; "state_name"; "votes"]
                  [[Str "UP"; Str "Uttar Pradesh"; Num 10]])
           "state" "state_name" "state").
  - done.
  - simpl. apply list_elem_of_here.
  - simpl. apply list_elem_of_further, list_elem_of_here.
  - reflexivity.
  - reflexivity.
Defined.

Lemma unioned_table_is_concatenation_witness :
  ∃ d R14 R19 R24,
    sanitize_margin (table ["State"; "Margin"] [[Str "UP"; Str "7"]]) = Ok d
    ∧ rows (table ["state"; "votes"; "year"; "margin"]
                  [[Str "UP"; Num 10; Num 2014; NaN];
                   [Str "MH"; Num 30; Num 2019; NaN];
                   [Str "UP"; NaN; Num 2024; Num 7]])
      = (R14 ++ R19 ++ R24)%list
    ∧ Forall2 (laid_out
                 (columns (map_semantic (normalize
                    (table ["State"; "Votes"] [[Str "UP"; Num 10]]))))
                 ["state"; "votes"; "year"; "margin"] 2014)
              [[Str "UP"; Num 10]] R14
    ∧ Forall2 (laid_out
                 (columns (map_semantic (normalize
                    (table ["state_name"; "total_votes"] [[Str "MH"; Num 30]]))))
                 ["state"; "votes"; "year"; "margin"] 2019)
              [[Str "MH"; Num 30]] R19
    ∧ Forall2 (laid_out
                 (columns (map_semantic (normalize
                    (table ["State"; "Margin"] [[Str "UP"; Str "7"]]))))
                 ["state"; "votes"; "year"; "margin"] 2024)
              (rows d) R24
    ∧ (∀ l, l ∈ ["state"; "votes"; "year"; "margin"] ↔
            l = "year"
            ∨ l ∈ columns (map_semantic (normalize
                    (table ["State"; "Votes"] [[Str "UP"; Num 10]])))
            ∨ l ∈ columns (map_semantic (normalize
                    (table ["state_name"; "total_votes"] [[Str "MH"; Num 30]])))
            ∨ l ∈ columns (map_semantic (normalize
                    (table ["State"; "Margin"] [[Str "UP"; Str "7"]])))).
Proof.
  apply (unioned_table_is_concatenation
           (table ["State"; "Votes"] [[Str "UP"; Num 10]])
           (table ["state_name"; "total_votes"] [[Str "MH"; Num 30]])
           (table ["State"; "Margin"] [[Str "UP"; Str "7"]])
           (table ["state"; "votes"; "year"; "margin"]
                 [[Str "UP"; Num 10; Num 2014; NaN];
                  [Str "MH"; Num 30; Num 2019; NaN];
                  [Str "UP"; NaN; Num 2024; Num 7]])).
  - unfold rectangular; simpl; repeat constructor.
  - unfold rectangular; simpl; repeat constructor.
  - unfold rectangular; simpl; repeat constructor.
  - vm_compute. reflexivity.
Defined.

Lemma filter_cascade_witness :
  filtered_view
    (table ["state"; "party"; "year"]
          [[Str "X"; Str "P"; Num 2019]; [Str "Y"; Str "P"; Num 2019];
           [Str "X"; Str "Q"; Num 2014]; [Str "X"; Str "Q"; Num 2019]])
    {| sel_year := Num 2019; sel_state := Str "X"; sel_party := All |}
  = Ok (table ["state"; "party"; "year"]
             [[Str "X"; Str "P"; Num 2019]; [Str "X"; Str "Q"; Num 2019]]).
Proof.
  refine (proj1 (filter_cascade
            (table ["state"; "party"; "year"]
                  [[Str "X"; Str "P"; Num 2019]; [Str "Y"; Str "P"; Num 2019];
                   [Str "X"; Str "Q"; Num 2014]; [Str "X"; Str "Q"; Num 2019]])
            2%nat 0%nat 2019 "X" _ _ _ _ _ _ _)).
  - reflexivity.
  - reflexivity.
  - vm_compute. lia.
  - discriminate.
  - intros a b Ha Hb. vm_compute in Ha, Hb.
    repeat (apply elem_of_cons in Ha as [->|Ha]);
      repeat (apply elem_of_cons in Hb as [->|Hb]);
      try reflexivity; by apply elem_of_nil in Ha || by apply elem_of_nil in Hb.
  - intros a b Ha Hb. vm_compute in Ha, Hb.
    repeat (apply elem_of_cons in Ha as [->|Ha]);
      repeat (apply elem_of_cons in Hb as [->|Hb]);
      try reflexivity; by apply elem_of_nil in Ha || by apply elem_of_nil in Hb.
  - intros ip [= <-] a b Ha Hb. vm_compute in Ha, Hb.
    repeat (apply elem_of_cons in Ha as [->|Ha]);
      repeat (apply elem_of_cons in Hb as [->|Hb]);
      try reflexivity; by apply elem_of_nil in Ha || by apply elem_of_nil in Hb.
Defined.

Lemma presence_follows_union_schema_witness :
  has (table ["state"; "year"; "margin"] [[Str "UP"; Num 2014; NaN]]) "margin"
  = true
  ∧ Forall (fun r => Forall (fun v => v = NaN)
                       (cells_at ["state"; "year"; "margin"] "margin" r))
           [[Str "UP"; Num 2014; NaN]].
Proof.
  pose proof (presence_follows_union_schema
                (table ["State"] [[Str "UP"]])
                (table ["State"] [[Str "MH"]])
                (table ["State"; "Margin"] [[Str "UP"; Num 5]])
                (table ["state"; "year"; "margin"]
                      [[Str "UP"; Num 2014; NaN]; [Str "MH"; Num 2019; NaN];
                       [Str "UP"; Num 2024; Num 5]])
                2014
                (table ["state"; "year"; "margin"] [[Str "UP"; Num 2014; NaN]])
                ltac:(unfold rectangular; simpl; repeat constructor)
                ltac:(unfold rectangular; simpl; repeat constructor)
                ltac:(unfold rectangular; simpl; repeat constructor)
                ltac:(vm_compute; reflexivity)
                ltac:(vm_compute; reflexivity)) as (Hhas & H14 & _).
  split.
  - apply Hhas. right. right. exists "Margin". split; [|vm_compute; reflexivity].
    simpl. apply list_elem_of_further, list_elem_of_here.
  - apply H14; [reflexivity|].
    intros (l & Hl & Hm). simpl in Hl.
    apply list_elem_of_singleton in Hl. subst l. vm_compute in Hm. discriminate.
Defined.

Lemma load_data_outcome_witness :
  ∃ u, load_data (table ["State"; "Votes"] [[Str "UP"; Num 10]])
                 (table ["state_name"] [[Str "MH"]])
                 (table ["State"; "Margin"] [[Str "UP"; Str "7"]]) = Ok u.
Proof.
  apply (proj1 (proj2 (load_data_outcome
                         (table ["State"; "Votes"] [[Str "UP"; Num 10]])
                         (table ["state_name"] [[Str "MH"]])
                         (table ["State"; "Margin"] [[Str "UP"; Str "7"]])))).
  - vm_compute. lia.
  - right. repeat split; apply (bool_decide_unpack _); vm_compute; exact I.
Defined.

Lemma year_tagging_witness :
  (length (filter (tagged ["state"; "year"] 2014%Z)
                  (rows (table ["state"; "year"]
                               [[Str "UP"; Num 2014%Z]; [Str "MH"; Num 2019%Z];
                                [Str "GA"; Num 2019%Z]; [Str "UP"; Num 2024%Z]])))
   + length (filter (tagged ["state"; "year"] 2019%Z)
                    (rows (table ["state"; "year"]
                                 [[Str "UP"; Num 2014%Z]; [Str "MH"; Num 2019%Z];
                                  [Str "GA"; Num 2019%Z]; [Str "UP"; Num 2024%Z]])))
   + length (filter (tagged ["state"; "year"] 2024%Z)
                    (rows (table ["state"; "year"]
                                 [[Str "UP"; Num 2014%Z]; [Str "MH"; Num 2019%Z];
                                  [Str "GA"; Num 2019%Z]; [Str "UP"; Num 2024%Z]])))
   = 4)%nat.
Proof.
  apply (year_tagging
           (table ["State"] [[Str "UP"]])
           (table ["State"] [[Str "MH"]; [Str "GA"]])
           (table ["State"] [[Str "UP"]])
           (table ["state"; "year"]
                  [[Str "UP"; Num 2014]; [Str "MH"; Num 2019];
                   [Str "GA"; Num 2019]; [Str "UP"; Num 2024]])).
  - unfold rectangular; simpl; repeat constructor.
  - unfold rectangular; simpl; repeat constructor.
  - unfold rectangular; simpl; repeat constructor.
  - vm_compute. reflexivity.
Defined.

Lemma unioned_columns_start_with_2014_witness :
  columns (prepared 2014 (table ["State"; "Votes"] [[Str "UP"; Num 10]]))
  `prefix_of` ["state"; "votes"; "year"; "margin"].
Proof.
  apply (unioned_columns_start_with_2014
           (table ["State"; "Votes"] [[Str "UP"; Num 10]])
           (table ["state_name"; "total_votes"] [[Str "MH"; Num 30]])
           (table ["State"; "Margin"] [[Str "UP"; Str "7"]])
           (table ["state"; "votes"; "year"; "margin"]
                 [[Str "UP"; Num 10; Num 2014; NaN];
                  [Str "MH"; Num 30; Num 2019; NaN];
                  [Str "UP"; NaN; Num 2024; Num 7]])).
  vm_compute. reflexivity.
Defined.

Lemma filtered_view_rows_witness :
  rows (table ["state"; "party"; "year"]
             [[Str "X"; Str "P"; Num 2019]])
  `sublist_of`
  [[Str "X"; Str "P"; Num 2019]; [Str "Y"; Str "P"; Num 2019];
   [Str "X"; Str "Q"; Num 2014]; [Str "X"; Str "Q"; Num 2019]].
Proof.
  apply (filtered_view_rows
           (table ["state"; "party"; "year"]
                 [[Str "X"; Str "P"; Num 2019]; [Str "Y"; Str "P"; Num 2019];
                  [Str "X"; Str "Q"; Num 2014]; [Str "X"; Str "Q"; Num 2019]])
           {| sel_year := Num 2019; sel_state := Str "X"; sel_party := Str "P" |}
           (table ["state"; "party"; "year"] [[Str "X"; Str "P"; Num 2019]])).
  vm_compute. reflexivity.
Defined.

Lemma year_views_partition_witness :
  ∃ f19,
    year_filter (Num 2019)
      (table ["state"; "year"]
            [[Str "UP"; Num 2014]; [Str "MH"; Num 2019];
             [Str "GA"; Num 2019]; [Str "UP"; Num 2024]]) = Ok f19
    ∧ length (rows f19) = 2%nat.
Proof.
  destruct (year_views_partition
              (table ["State"] [[Str "UP"]])
              (table ["State"] [[Str "MH"]; [Str "GA"]])
              (table ["State"] [[Str "UP"]])
              (table ["state"; "year"]
                    [[Str "UP"; Num 2014]; [Str "MH"; Num 2019];
                     [Str "GA"; Num 2019]; [Str "UP"; Num 2024]])
              1%nat
              ltac:(unfold rectangular; simpl; repeat constructor)
              ltac:(unfold rectangular; simpl; repeat constructor)
              ltac:(unfold rectangular; simpl; repeat constructor)
              ltac:(vm_compute; reflexivity)
              ltac:(vm_compute; reflexivity))
    as (d & f14 & f19 & f24 & _ & _ & H19 & _ & _ & _ & HF & _).
  exists f19. split; [exact H19|].
  symmetry. exact (Forall2_length _ _ _ HF).
Defined.

Lemma avg_not_available_without_field_witness :
  avg_metric (table ["state"; "votes"; "year"; "margin"]
                   [[Str "UP"; NaN; Num 2024; Num 7]]) "votes"
  = Ok NotAvailable.
Proof.
  apply (avg_not_available_without_field
           (table ["State"; "Votes"] [[Str "UP"; Num 10]])
           (table ["state_name"; "total_votes"] [[Str "MH"; Num 30]])
           (table ["State"; "Margin"] [[Str "UP"; Str "7"]])
           (table ["state"; "votes"; "year"; "margin"]
                 [[Str "UP"; Num 10; Num 2014; NaN];
                  [Str "MH"; Num 30; Num 2019; NaN];
                  [Str "UP"; NaN; Num 2024; Num 7]])
           {| sel_year := Num 2024; sel_state := All; sel_party := All |}).
  - unfold rectangular; simpl; repeat constructor.
  - unfold rectangular; simpl; repeat constructor.
  - unfold rectangular; simpl; repeat constructor.
  - vm_compute. reflexivity.
  - vm_compute. reflexivity.
  - discriminate.
  - vm_compute. lia.
  - right. right. split; [reflexivity|].
    intros (l & Hl & Hm). simpl in Hl.
    repeat (apply elem_of_cons in Hl as [->|Hl]);
      [vm_compute in Hm; discriminate..|by apply elem_of_nil in Hl].
Defined.

Lemma box_options_spec_witness :
  ∃ vals : list (@value Z), [All; Str "Goa"; Str "MH"; Str "UP"] = All :: vals
          ∧ NoDup vals
          ∧ (∀ v, v ∈ vals ↔ v ∈ [Str "UP"; NaN; Str "MH"; Str "UP"; Str "Goa"]
                              ∧ v ≠ NaN)
          ∧ Sorted value_le vals
          ∧ length vals
            = nunique (num := Z) [Str "UP"; NaN; Str "MH"; Str "UP"; Str "Goa"].
Proof.
  apply (proj1 (box_options_spec (num := Z)
                  [Str "UP"; NaN; Str "MH"; Str "UP"; Str "Goa"])).
  vm_compute. reflexivity.
Defined.

Lemma offered_choice_selects_witness :
  ∃ f', cascade "state" (Str "MH")
          (table ["state"; "year"]
                [[Str "UP"; Num 2019]; [Str "MH"; Num 2019]; [NaN; Num 2019]])
        = Ok f'
        ∧ rows f' ≠ [].
Proof.
  destruct (proj2 (offered_choice_selects
              (table ["state"; "year"]
                    [[Str "UP"; Num 2019]; [Str "MH"; Num 2019];
                     [NaN; Num 2019]])
              "state" 0%nat ltac:(vm_compute; reflexivity))
              [All; Str "MH"; Str "UP"] (Str "MH")
              ltac:(vm_compute; reflexivity)
              ltac:(apply list_elem_of_further, list_elem_of_here)
              ltac:(discriminate))
    as (f' & Hc & Hne & _).
  by exists f'.
Defined.

Lemma parties_metric_after_choice_witness :
  parties_metric (table ["party"; "year"]
                       [[Str "P"; Num 2019]; [Str "P"; Num 2019]])
  = Ok (Count 1).
Proof.
  apply (parties_metric_after_choice
           (table ["party"; "year"]
                 [[Str "P"; Num 2019]; [Str "Q"; Num 2019];
                  [Str "P"; Num 2019]; [Str "P"; Num 2014]])
           {| sel_year := Num 2019; sel_state := All; sel_party := Str "P" |}).
  - vm_compute. reflexivity.
  - vm_compute. reflexivity.
  - discriminate.
Defined.

Lemma preview_of_year_view_witness :
  ∃ f19,
    year_filter (Num 2019)
      (table ["state"; "year"]
            [[Str "UP"; Num 2014]; [Str "MH"; Num 2019];
             [Str "GA"; Num 2019]; [Str "UP"; Num 2024]]) = Ok f19
    ∧ preview f19 = f19.
Proof.
  destruct (preview_of_year_view
              (table ["State"] [[Str "UP"]])
              (table ["State"] [[Str "MH"]; [Str "GA"]])
              (table ["State"] [[Str "UP"]])
              (table ["state"; "year"]
                    [[Str "UP"; Num 2014]; [Str "MH"; Num 2019];
                     [Str "GA"; Num 2019]; [Str "UP"; Num 2024]])
              1%nat
              ltac:(unfold rectangular; simpl; repeat constructor)
              ltac:(unfold rectangular; simpl; repeat constructor)
              ltac:(unfold rectangular; simpl; repeat constructor)
              ltac:(vm_compute; reflexivity)
              ltac:(vm_compute; reflexivity))
    as (d & f14 & f19 & f24 & _ & _ & H19 & _ & _ & _ & _ & _ & _ & _ & _
        & Hw & _).
  exists f19. split; [exact H19|]. apply Hw. simpl. lia.
Defined.

Lemma two_year_fields_on_label_collision_witness :
  load_data (table ["Year"; "year"] [[Num 2009; Num 1]])
            (table ["Year"; "year"] [[Num 2009; Num 1]])
            (table ["Year"; "year"] [[Num 2009; Num 1]])
  = Ok (table ["year"; "year"]
              [[Num 2014; Num 2014]; [Num 2019; Num 2019];
               [Num 2024; Num 2024]]).
Proof.
  exact (proj1 (proj2 two_year_fields_on_label_collision)).
Defined.

Lemma margin_sanitation_2024_only_witness :
  ∃ d', sanitize_margin (table ["Seat"; "Margin"]
                               [[Str "A"; Str "10000"]; [Str "B"; Str "N/A"];
                                [Str "C"; Str "-500"]]) = Ok d'
        ∧ columns d'
          = columns (table ["Seat"; "Margin"]
                           [[Str "A"; Str "10000"]; [Str "B"; Str "N/A"];
                            [Str "C"; Str "-500"]])
        ∧ Forall2 (sanitized 1)
                  (filter (fun r => numeric_cell (cell r 1) = true)
                          (rows (table ["Seat"; "Margin"]
                                       [[Str "A"; Str "10000"];
                                        [Str "B"; Str "N/A"];
                                        [Str "C"; Str "-500"]])))
                  (rows d').
Proof.
  apply (proj1 margin_sanitation_2024_only
           (table ["Seat"; "Margin"]
                  [[Str "A"; Str "10000"]; [Str "B"; Str "N/A"];
                   [Str "C"; Str "-500"]]) 1%nat).
  - unfold rectangular; simpl; repeat constructor.
  - vm_compute. reflexivity.
Defined.

Lemma avg_metric_excludes_non_numeric_witness :
  avg_metric (table ["votes"; "year"]
                    [[Str "100"; Num 2014]; [Str "n/a"; Num 2014];
                     [Num 51; Num 2014]; [NaN; Num 2014]]) "votes"
  = Ok (Shown 75)
  ∧ avg_metric (table ["votes"; "year"] [[Str "n/a"; Num 2014]]) "votes"
    = Ok NotAvailable.
Proof.
  split.
  - rewrite (proj1 (avg_metric_excludes_non_numeric
                      (table ["votes"; "year"]
                             [[Str "100"; Num 2014]; [Str "n/a"; Num 2014];
                              [Num 51; Num 2014]; [NaN; Num 2014]]) "votes"
                      ltac:(vm_compute; lia))).
    vm_compute. reflexivity.
  - apply (proj1 (proj2 (proj2 (avg_metric_excludes_non_numeric
                                  (table ["votes"; "year"]
                                         [[Str "n/a"; Num 2014]])
                                  "votes" ltac:(vm_compute; lia))))).
    apply (bool_decide_unpack _). vm_compute. exact I.
Defined.

(** C1, as stated, fails: with a 2024 dataset that has a [Margin] column and
    a 2014 dataset that has none, the presence query on the 2014 view still
    answers true for [margin]. *)
Lemma presence_per_year_counterexample :
  ¬ (∀ (num : Type) (E : EqDecision num) (N : @Numbers num),
        @NumbersLaws num N →
        ∀ a b c u f : @DataFrame num,
          well_formed a → well_formed b → well_formed c →
          load_data a b c = Ok u →
          year_filter (Num (of_int 2014)) u = Ok f →
          ¬ has_field a "margin" →
          has f "margin" = false).
Proof.
  intros H.
  specialize (H Z _ int_numbers int_numbers_laws
                (table ["State"] [[Str "UP"]])
                (table ["State"] [[Str "MH"]])
                (table ["State"; "Margin"] [[Str "UP"; Num 5]])
                (table ["state"; "year"; "margin"]
                       [[Str "UP"; Num 2014; NaN]; [Str "MH"; Num 2019; NaN];
                        [Str "UP"; Num 2024; Num 5]])
                (table ["state"; "year"; "margin"] [[Str "UP"; Num 2014; NaN]])).
  assert (Hf : has (table ["state"; "year"; "margin"]
                          [[Str "UP"; Num 2014; NaN]]) "margin" = false).
  { apply H.
    - table_wf.
    - table_wf.
    - table_wf.
    - vm_compute. reflexivity.
    - vm_compute. reflexivity.
    - intros (l & Hl & Hm). simpl in Hl.
      apply list_elem_of_singleton in Hl. subst l.
      vm_compute in Hm. discriminate. }
  vm_compute in Hf. discriminate.
Qed.

Lemma semantic_mapping_by_table_witness :
  ∃ d R14 R19 R24,
    sanitize_margin (table ["Seat"] [[Str "C"]]) = Ok d
    ∧ rows (table ["seat"; "year"]
                  [[Str "A"; Num 2014]; [Str "B"; Num 2019];
                   [Str "C"; Num 2024]])
      = (R14 ++ R19 ++ R24)%list
    ∧ Forall (tagged ["seat"; "year"] 2014) R14
    ∧ Forall2 (fun r r' => Forall2 same_cell (cells_at ["seat"] "seat" r)
                                   (cells_at ["seat"; "year"] "seat" r'))
              [[Str "A"]] R14.
Proof.
  destruct (proj1 (proj2 (proj2 (proj2 (proj2 (proj2
                     semantic_mapping_by_table)))))
              (table ["Seat"] [[Str "A"]])
              (table ["Seat"] [[Str "B"]])
              (table ["Seat"] [[Str "C"]])
              (table ["seat"; "year"]
                     [[Str "A"; Num 2014]; [Str "B"; Num 2019];
                      [Str "C"; Num 2024]])
              ltac:(unfold rectangular; simpl; repeat constructor)
              ltac:(unfold rectangular; simpl; repeat constructor)
              ltac:(unfold rectangular; simpl; repeat constructor)
              ltac:(vm_compute; reflexivity))
    as (d & R14 & R19 & R24 & Hs & Hrows & Ht & _ & _ & Hl).
  exists d, R14, R19, R24. split; [exact Hs|]. split; [exact Hrows|].
  split; [exact Ht|].
  apply (Hl "seat"); [reflexivity|discriminate|].
  simpl. apply list_elem_of_here.
Defined.

(** C4, as stated, fails on the label [year]: it is outside every synonym
    group, yet the data of a dataset's own [Year] column is replaced by the
    year tag. *)
Lemma unmapped_data_preserved_counterexample :
  ¬ (∀ (num : Type) (E : EqDecision num) (N : @Numbers num),
        @NumbersLaws num N →
        ∀ (a b c u : @DataFrame num) (l : label),
          well_formed a → well_formed b → well_formed c →
          load_data a b c = Ok u →
          l ∈ columns (normalize a) → synonym l = None →
          canonical l = l
          ∧ ∃ R14 R,
              rows u = (R14 ++ R)%list
              ∧ Forall2 (fun r r' =>
                           Forall2 same_cell
                             (cells_at (columns (normalize a)) l r)
                             (cells_at (columns u) l r'))
                        (rows a) R14).
Proof.
  intros H.
  destruct (H Z _ int_numbers int_numbers_laws
              (table ["Year"] [[Num 1999]])
              (table ["State"] [])
              (table ["State"] [])
              (table ["year"; "state"] [[Num 2014; NaN]])
              "year") as (_ & R14 & R & Hrows & HF).
  - table_wf.
  - table_wf.
  - table_wf.
  - vm_compute. reflexivity.
  - simpl. apply list_elem_of_here.
  - reflexivity.
  - simpl in Hrows, HF. inv HF.
    match goal with H : Forall2 _ [] _ |- _ => inv H end.
    simpl in Hrows. injection Hrows as <- _.
    match goal with
    | Hc : Forall2 same_cell ?x ?y |- _ =>
        let x' := eval vm_compute in x in
        let y' := eval vm_compute in y in
        change (Forall2 same_cell x' y') in Hc; inv Hc
    end.
    match goal with
    | Hc : same_cell (Num _) _ |- _ => destruct Hc as (y & [= <-] & Hy)
    end.
    assert (2014 = 1999)%Z; [|done].
    apply Hy. intros z Hz. change (1999 = z) in Hz. subst z.
    vm_compute. discriminate.
Qed.

Lemma sanitize_margin_numeric_witness :
  Forall (fun r => ∃ x, cell r 1 = Num x)
         (rows (table ["Seat"; "Margin"]
                      [[Str "A"; Num 10000]; [Str "C"; Num (-500)]])).
Proof.
  refine (proj1 (sanitize_margin_numeric
                   (table ["Seat"; "Margin"]
                          [[Str "A"; Str "10000"]; [Str "B"; Str "N/A"];
                           [Str "C"; Str "-500"]]) 1%nat
                   (table ["Seat"; "Margin"]
                          [[Str "A"; Num 10000]; [Str "C"; Num (-500)]])
                   _ _ _)).
  - unfold rectangular; simpl; repeat constructor.
  - vm_compute. reflexivity.
  - vm_compute. reflexivity.
Defined.

Lemma kpis_after_view_witness :
  ∃ k, dashboard_kpis
         (table ["party"; "votes"; "year"]
                [[Str "P"; Num 10; Num 2019]; [Str "Q"; Str "x"; Num 2019];
                 [Str "P"; Num 20; Num 2019]; [Str "R"; Num 5; Num 2014]])
         {| sel_year := Num 2019; sel_state := All; sel_party := All |} = Ok k
       ∧ kpi_records k = 3%nat
       ∧ kpi_avg_votes k = Shown 15.
Proof.
  assert (Hv : filtered_view
                 (table ["party"; "votes"; "year"]
                        [[Str "P"; Num 10; Num 2019];
                         [Str "Q"; Str "x"; Num 2019];
                         [Str "P"; Num 20; Num 2019];
                         [Str "R"; Num 5; Num 2014]])
                 {| sel_year := Num 2019; sel_state := All; sel_party := All |}
               = Ok (table ["party"; "votes"; "year"]
                           [[Str "P"; Num 10; Num 2019];
                            [Str "Q"; Str "x"; Num 2019];
                            [Str "P"; Num 20; Num 2019]]))
    by (vm_compute; reflexivity).
  destruct (proj2 (kpis_after_view _ _ _ Hv)) as (p & _ & _ & _ & Hshow & _).
  eexists. split; [|split].
  - apply Hshow; vm_compute; reflexivity.
  - reflexivity.
  - reflexivity.
Defined.

